(** * Nirmaan transcript scoring: a shallow embedding of the backend

    The development follows the three backend modules of the repository:
    [utils.py], [nlp_processor.py] and [scoring_engine.py], and the two
    scoring endpoints of [app.py].

    Conventions of the embedding.
    - A Python [str] is a list of code points; the code points are the
      Latin-1 range U+0000..U+00FF, carried by [ascii].  The character
      classes ([str.isspace], [str.isalnum], the regular-expression classes
      [\s] and [\w]) and [str.lower] are the ones CPython uses on that range.
    - A Python [int] is a [Z].
    - A Python [float] is taken as the exact rational it denotes ([Q], compared
      with [==]): the arithmetic of the scoring rules is modelled, not the
      rounding of binary64.  What is proved on [Q] is a statement in exact
      arithmetic.  The weighted average is given a second time on the
      binary64 numbers themselves ([PrimFloat]), because the rounding changes
      what holds of it.
    - NLTK's [word_tokenize] and [sent_tokenize] and the cosine of the
      sentence-transformer embeddings are external to the repository; they are
      section variables of the modules that call them.
    - A Python exception is a [Raise] in the [result] type.
    - The body of a request is the value [request.get_json()] returns, or the
      exception it raises; the handlers are followed up to the data they hand
      to [jsonify]. *)

From Stdlib Require Import Ascii String DecimalString ZArith QArith Qround
  Lqa Lia Bool List Permutation.
From Stdlib Require PrimFloat.
Import ListNotations.

Set Warnings "-inexact-float,-register-all".

(** ** Python values *)

Module Py.

(** A [str], as the list of its code points. *)
Definition str := list ascii.

(** A string literal of the Python source. *)
Definition lit (s : string) : str := list_ascii_of_string s.

Definition str_eq_dec : forall a b : str, {a = b} + {a <> b} :=
  list_eq_dec ascii_dec.

Definition code (c : ascii) : N := N_of_ascii c.

Definition between (lo hi n : N) : bool := ((lo <=? n) && (n <=? hi))%N.

(** [str.isspace] on one code point, which is also the class [\s] of [re]:
    U+0009..U+000D, U+001C..U+0020, U+0085 and U+00A0. *)
Definition isspace (c : ascii) : bool :=
  let n := code c in
  between 9 13 n || between 28 32 n || (n =? 133)%N || (n =? 160)%N.

(** [str.isalnum] on one code point: letters, decimal digits and the other
    numeric characters of Latin-1. *)
Definition isalnum_char (c : ascii) : bool :=
  let n := code c in
  between 48 57 n || between 65 90 n || between 97 122 n
  || (n =? 170)%N || between 178 179 n || (n =? 181)%N
  || between 185 186 n || between 188 190 n
  || between 192 214 n || between 216 246 n || between 248 255 n.

(** The class [\w] of [re]: an alphanumeric code point or the underscore. *)
Definition isword (c : ascii) : bool :=
  isalnum_char c || (code c =? 95)%N.

(** [str.isalnum]: every code point is alphanumeric and there is at least
    one. *)
Definition isalnum (s : str) : bool :=
  match s with
  | [] => false
  | _ => forallb isalnum_char s
  end.

(** [str.lower] on one code point: A..Z and the upper-case letters
    U+00C0..U+00DE (but the multiplication sign U+00D7) move up by 32. *)
Definition lower_char (c : ascii) : ascii :=
  let n := code c in
  if between 65 90 n || (between 192 222 n && negb (n =? 215)%N)
  then ascii_of_N (n + 32)
  else c.

Definition lower (s : str) : str := map lower_char s.

(** [str.lstrip()], [str.rstrip()] and [str.strip()] with no argument. *)
Fixpoint lstrip (s : str) : str :=
  match s with
  | [] => []
  | c :: r => if isspace c then lstrip r else s
  end.

Definition rstrip (s : str) : str := rev (lstrip (rev s)).

Definition strip (s : str) : str := rstrip (lstrip s).

(** [str.split()] with no argument: the maximal runs of characters that are
    not whitespace, in order.  [cur] is the run being read, reversed. *)
Fixpoint split_from (cur : str) (s : str) : list str :=
  match s with
  | [] => match cur with [] => [] | _ => [rev cur] end
  | c :: r =>
      if isspace c
      then match cur with
           | [] => split_from [] r
           | _ => rev cur :: split_from [] r
           end
      else split_from (c :: cur) r
  end.

Definition split (s : str) : list str := split_from [] s.

(** [str.split(sep)] for a one-character separator: empty fields are kept. *)
Fixpoint split_on_from (sep : ascii) (cur : str) (s : str) : list str :=
  match s with
  | [] => [rev cur]
  | c :: r =>
      if Ascii.eqb c sep
      then rev cur :: split_on_from sep [] r
      else split_on_from sep (c :: cur) r
  end.

Definition split_on (sep : ascii) (s : str) : list str :=
  split_on_from sep [] s.

(** [s.startswith(p)]. *)
Fixpoint startswith (p s : str) : bool :=
  match p, s with
  | [], _ => true
  | _ :: _, [] => false
  | a :: p', b :: s' => Ascii.eqb a b && startswith p' s'
  end.

(** [sub in s]: the substring test of Python. *)
Fixpoint contains (sub s : str) : bool :=
  startswith sub s ||
  match s with
  | [] => false
  | _ :: r => contains sub r
  end.

(** [s.count(sub)] for a non-empty [sub]: occurrences are counted from the
    left and do not overlap; [skip] characters of the last occurrence are
    still to be passed. *)
Fixpoint count_from (sub : str) (skip : nat) (s : str) : nat :=
  match s with
  | [] => 0
  | _ :: r =>
      match skip with
      | S k => count_from sub k r
      | O =>
          if startswith sub s
          then S (count_from sub (List.length sub - 1) r)
          else count_from sub 0 r
      end
  end.

(** [s.count(sub)]; the empty string occurs [len(s) + 1] times. *)
Definition count (s sub : str) : nat :=
  match sub with
  | [] => S (List.length s)
  | _ => count_from sub 0 s
  end.

(** [x in xs] for a set or list of strings. *)
Definition mem (x : str) (xs : list str) : bool :=
  existsb (fun y => if str_eq_dec x y then true else false) xs.

(** [len(set(xs))]: the number of distinct strings. *)
Definition distinct (xs : list str) : list str := nodup str_eq_dec xs.

(** [len(xs)] as a Python integer. *)
Definition len {A} (xs : list A) : Z := Z.of_nat (List.length xs).

(** Comparisons of floats. *)
Definition Qltb (a b : Q) : bool := negb (Qle_bool b a).
Definition Qgeb (a b : Q) : bool := Qle_bool b a.

(** [min(a, b)] and [max(a, b)] of Python keep the first argument unless the
    second is strictly smaller (resp. greater). *)
Definition min (a b : Q) : Q := if Qltb b a then b else a.
Definition max (a b : Q) : Q := if Qltb a b then b else a.

(** [a / b] on two integers, where the source has checked [b] beforehand. *)
Definition truediv (a b : Z) : Q := inject_Z a / inject_Z b.

(** [sum(xs)]: the additions are done from the left, starting at 0. *)
Definition sum (xs : list Q) : Q := fold_left Qplus xs 0.

(** [round(x, 2)]: the nearest multiple of 1/100, ties to the even one. *)
Definition round2 (x : Q) : Q :=
  let y := x * 100 in
  let f := Qfloor y in
  let r := y - inject_Z f in
  let n := if Qltb r (1 # 2) then f
           else if Qltb (1 # 2) r then (f + 1)%Z
           else if Z.even f then f else (f + 1)%Z in
  inject_Z n / 100.

(** What a call produces: a value, or an exception that propagates.  The
    exceptions are the ones the backend meets, all of them subclasses of
    [Exception]: the first four are raised by the operations the handlers
    apply to a request, [BadRequest] and [UnsupportedMediaType] by
    [request.get_json()], [FileNotFoundError] and [OtherException] by the
    creation of the engine. *)
Inductive exn : Type :=
| ZeroDivisionError
| TypeError
| AttributeError
| KeyError
| BadRequest
| UnsupportedMediaType
| FileNotFoundError
| OtherException.

Inductive result (A : Type) : Type :=
| Ok (a : A)
| Raise (e : exn).
Arguments Ok {A} a.
Arguments Raise {A} e.

Definition bind {A B} (m : result A) (k : A -> result B) : result B :=
  match m with
  | Ok a => k a
  | Raise e => Raise e
  end.

(** [a / b] on two integers with no check before it. *)
Definition truediv_checked (a b : Z) : result Q :=
  if (b =? 0)%Z then Raise ZeroDivisionError else Ok (truediv a b).

End Py.

Notation "x <- m ;; k" := (Py.bind m (fun x => k))
  (at level 61, m at next level, right associativity).

Import Py.
Local Open Scope Q_scope.

(** ** utils.py *)

Module Utils.

(** [parse_keywords]: the cell of the rubric is [None] when it is empty
    (pandas' NaN); otherwise its text is cut at the commas, each piece is
    stripped and the empty pieces are dropped. *)
Definition parse_keywords (keyword_string : option str) : list str :=
  match keyword_string with
  | None => []
  | Some [] => []
  | Some ks =>
      let keywords := map strip (split_on ","%char ks) in
      filter (fun k => match k with [] => false | _ => true end) keywords
  end.

(** [normalize_score(score, min_val, max_val)]. *)
Definition normalize_score_in (score min_val max_val : Q) : Q :=
  max min_val (min max_val score).

(** [normalize_score(score)] with the default bounds 0 and 100, the only
    form the repository calls. *)
Definition normalize_score (score : Q) : Q := normalize_score_in score 0 100.

Definition is_empty {A} (xs : list A) : bool :=
  match xs with [] => true | _ => false end.

(** [calculate_weighted_average], in exact arithmetic: the numbers are the
    rationals the floats denote and no operation is rounded.  The function
    on the binary64 numbers themselves is
    [calculate_weighted_average_binary64] below. *)
Definition calculate_weighted_average (scores weights : list Q) : Q :=
  if is_empty scores || is_empty weights
     || negb (len scores =? len weights)%Z
  then 0
  else
    let total_weight := sum weights in
    if Qeq_bool total_weight 0 then 0
    else
      let weighted_sum :=
        sum (map (fun sw => fst sw * snd sw) (combine scores weights)) in
      weighted_sum / total_weight.

(** [sum(xs)] on binary64 numbers, as CPython adds them up to version 3.11:
    from the left, starting at 0, each addition rounded.  (From version 3.12
    [sum] compensates the rounding errors of the additions.) *)
Definition sum_binary64 (xs : list PrimFloat.float) : PrimFloat.float :=
  fold_left PrimFloat.add xs PrimFloat.zero.

(** [calculate_weighted_average] on binary64 numbers: the same tests, and
    every product, sum and quotient rounded as the interpreter rounds it. *)
Definition calculate_weighted_average_binary64
    (scores weights : list PrimFloat.float) : PrimFloat.float :=
  if is_empty scores || is_empty weights
     || negb (len scores =? len weights)%Z
  then PrimFloat.zero
  else
    let total_weight := sum_binary64 weights in
    if PrimFloat.eqb total_weight PrimFloat.zero then PrimFloat.zero
    else
      let weighted_sum :=
        sum_binary64
          (map (fun sw => PrimFloat.mul (fst sw) (snd sw))
             (combine scores weights)) in
      PrimFloat.div weighted_sum total_weight.

(** The four values [get_word_count_status] returns. *)
Inductive word_count_status : Type :=
| too_short
| within_range
| too_long
| no_limit.

(** [get_word_count_status]. *)
Definition get_word_count_status (word_count min_words max_words : Z)
  : word_count_status :=
  if ((min_words =? 0) && (max_words >=? 999))%Z then no_limit
  else if (word_count <? min_words)%Z then too_short
  else if (word_count >? max_words)%Z then too_long
  else within_range.

(** The decimal text of an integer, as an f-string prints it. *)
Definition str_of_int (n : Z) : str :=
  lit (DecimalString.NilZero.string_of_int (Z.to_int n)).

(** The dictionary [validate_transcript] returns; the key [word_count] is
    present in the valid case only. *)
Record validation : Type := {
  valid : bool;
  message : str;
  val_word_count : option Z
}.

(** [validate_transcript]. *)
Definition validate_transcript (transcript : str) : validation :=
  if is_empty transcript || is_empty (strip transcript) then
    {| valid := false;
       message := lit "Transcript is empty";
       val_word_count := None |}
  else
    let word_count := len (split transcript) in
    if (word_count <? 10)%Z then
      {| valid := false;
         message := lit "Transcript too short (" ++ str_of_int word_count
                    ++ lit " words). Minimum 10 words required.";
         val_word_count := None |}
    else if (word_count >? 5000)%Z then
      {| valid := false;
         message := lit "Transcript too long (" ++ str_of_int word_count
                    ++ lit " words). Maximum 5000 words allowed.";
         val_word_count := None |}
    else
      {| valid := true;
         message := lit "Transcript is valid";
         val_word_count := Some word_count |}.

(** [get_score_category]. *)
Definition get_score_category (score : Q) : str :=
  if Qgeb score 90 then lit "Excellent"
  else if Qgeb score 80 then lit "Very Good"
  else if Qgeb score 70 then lit "Good"
  else if Qgeb score 60 then lit "Satisfactory"
  else if Qgeb score 50 then lit "Fair"
  else lit "Needs Improvement".

End Utils.

(** ** nlp_processor.py *)

Module NLP.

(** [re.sub(r'\s+', ' ', text)]: every maximal run of whitespace becomes one
    space.  [in_run] tells that the run being read has been replaced. *)
Fixpoint sub_whitespace_runs (in_run : bool) (text : str) : str :=
  match text with
  | [] => []
  | c :: r =>
      if isspace c
      then if in_run then sub_whitespace_runs true r
           else " "%char :: sub_whitespace_runs true r
      else c :: sub_whitespace_runs false r
  end.

(** The characters the class [[^\w\s.,!?-]] does not match, the ones
    [re.sub(r'[^\w\s.,!?-]', '', text)] keeps. *)
Definition kept_char (c : ascii) : bool :=
  isword c || isspace c
  || Ascii.eqb c "."%char || Ascii.eqb c ","%char || Ascii.eqb c "!"%char
  || Ascii.eqb c "?"%char || Ascii.eqb c "-"%char.

Definition sub_special_chars (text : str) : str := filter kept_char text.

(** [NLPProcessor.preprocess_text]. *)
Definition preprocess_text (text : str) : str :=
  let text := sub_whitespace_runs false text in
  let text := sub_special_chars text in
  strip text.

(** The dictionary [find_keyword_matches] returns. *)
Record keyword_matches : Type := {
  found : list str;
  missing : list str;
  match_rate : Q
}.

(** The dictionary [analyze_text_quality] returns. *)
Record text_quality : Type := {
  tq_word_count : Z;
  sentence_count : Z;
  avg_sentence_length : Q;
  unique_words : Z;
  vocabulary_richness : Q
}.

Section Tokenizers.

(** NLTK's [word_tokenize] and [sent_tokenize]. *)
Variable word_tokenize : str -> list str.
Variable sent_tokenize : str -> list str.

(** [NLPProcessor.count_words]. *)
Definition count_words (text : str) : Z :=
  let words := word_tokenize (lower text) in
  len (filter isalnum words).

(** One turn of the loop of [find_keyword_matches]: the keyword goes to the
    end of [found] or to the end of [missing]. *)
Definition match_step (text_lower : str) (text_words : list str)
    (acc : list str * list str) (keyword : str) : list str * list str :=
  let (found, missing) := acc in
  if contains (lower keyword) text_lower then (found ++ [keyword], missing)
  else if mem (lower keyword) text_words then (found ++ [keyword], missing)
  else (found, missing ++ [keyword]).

(** [NLPProcessor.find_keyword_matches]. *)
Definition find_keyword_matches (text : str) (keywords : list str)
  : keyword_matches :=
  let text_lower := lower text in
  let text_words := word_tokenize text_lower in
  let (found, missing) :=
    fold_left (match_step text_lower text_words) keywords ([], []) in
  {| found := found;
     missing := missing;
     match_rate := if Utils.is_empty keywords then 0
                   else truediv (len found) (len keywords) |}.

(** [NLPProcessor.analyze_text_quality].  The two quotients are guarded by
    [if sentences] and [if words]; the second divides by the number of
    alphanumeric tokens, which the guard does not look at. *)
Definition analyze_text_quality (text : str) : result text_quality :=
  let sentences := sent_tokenize text in
  let words := word_tokenize text in
  let alnum_words := filter isalnum words in
  let unique := len (distinct (map lower alnum_words)) in
  avg <- (if Utils.is_empty sentences then Ok 0
          else truediv_checked (len words) (len sentences)) ;;
  richness <- (if Utils.is_empty words then Ok 0
               else truediv_checked unique (len alnum_words)) ;;
  Ok {| tq_word_count := len alnum_words;
        sentence_count := len sentences;
        avg_sentence_length := avg;
        unique_words := unique;
        vocabulary_richness := richness |}.

End Tokenizers.

Section Similarity.

(** The cosine of the two embeddings,
    [np.dot(emb1, emb2) / (norm(emb1) * norm(emb2))], computed by the
    sentence-transformer model. *)
Variable cosine : str -> str -> Q.

(** [NLPProcessor.calculate_similarity]: the cosine brought into [0, 1]. *)
Definition calculate_similarity (text1 text2 : str) : Q :=
  let similarity := cosine text1 text2 in
  max 0 (min 1 similarity).

End Similarity.

End NLP.

(** ** scoring_engine.py *)

Module Engine.

Import Utils NLP.

(** One row of the rubric sheet. *)
Record rubric_row : Type := {
  Criterion : str;
  Description : str;
  Keywords : option str;
  Weight : Q;
  Min_Words : Z;
  Max_Words : Z
}.

(** The [score_breakdown] entry of a criterion's result. *)
Record score_breakdown : Type := {
  rule_based : Q;
  semantic : Q;
  rubric_driven : Q
}.

(** The dictionary [_score_criterion] returns.  Its [feedback] text is built
    by [format_feedback] from the other entries and is left out. *)
Record criterion_result : Type := {
  criterion : str;
  score : Q;
  weight : Q;
  keywords_found : list str;
  keywords_missing : list str;
  keyword_match_rate : Q;
  semantic_similarity : Q;
  cr_word_count_status : word_count_status;
  breakdown : score_breakdown
}.

(** The dictionary [score_transcript] returns. *)
Record report : Type := {
  overall_score : Q;
  word_count : Z;
  criteria_scores : list criterion_result;
  quality : text_quality
}.

(** [sum(1 for kw in keywords if kw.lower() in transcript_lower)]. *)
Definition present_keywords (transcript_lower : str) (keywords : list str)
  : Z :=
  len (filter (fun kw => contains (lower kw) transcript_lower) keywords).

(** [ScoringEngine._rule_based_score]. *)
Definition _rule_based_score (transcript_lower : str) (keywords : list str)
    (min_words max_words : Z) : Q :=
  let score := 0 in
  let score :=
    if negb (is_empty keywords) then
      let matches := present_keywords transcript_lower keywords in
      let keyword_score := truediv matches (len keywords) * 70 in
      score + keyword_score
    else score + 35 in
  let word_count := len (split transcript_lower) in
  let score :=
    if ((min_words >? 0) || (max_words <? 999))%Z then
      if ((min_words <=? word_count) && (word_count <=? max_words))%Z then
        score + 30
      else if (word_count <? min_words)%Z then
        let ratio := if (min_words >? 0)%Z
                     then truediv word_count min_words else 1 in
        score + 30 * min ratio 1
      else
        score + 20
    else score + 30 in
  normalize_score score.

(** [ScoringEngine._rubric_driven_score]. *)
Definition _rubric_driven_score (transcript_lower : str)
    (keywords : list str) : Q :=
  if is_empty keywords then 50
  else
    let score := 0 in
    let total_occurrences :=
      fold_left Z.add
        (map (fun kw => Z.of_nat (count transcript_lower (lower kw)))
             keywords) 0%Z in
    let score :=
      if (total_occurrences >? 0)%Z then
        let density_score := Z.min 50 (total_occurrences * 10) in
        score + inject_Z density_score
      else score in
    let present := present_keywords transcript_lower keywords in
    let coverage := truediv present (len keywords) in
    let score := score + coverage * 50 in
    normalize_score score.

Section Scoring.

Variable word_tokenize : str -> list str.
Variable sent_tokenize : str -> list str.
Variable cosine : str -> str -> Q.

(** [ScoringEngine._semantic_score]: the score and the similarity. *)
Definition _semantic_score (transcript description : str) : Q * Q :=
  let similarity := calculate_similarity cosine transcript description in
  let score :=
    if Qgeb similarity (7 # 10) then 70 + (similarity - (7 # 10)) * 100
    else if Qgeb similarity (4 # 10) then 40 + (similarity - (4 # 10)) * 100
    else similarity * 100 in
  (normalize_score score, similarity).

(** [ScoringEngine._score_criterion]. *)
Definition _score_criterion (transcript transcript_lower : str)
    (criterion_name description : str) (keywords : list str) (weight : Q)
    (min_words max_words : Z) : criterion_result :=
  let rule_score :=
    _rule_based_score transcript_lower keywords min_words max_words in
  let (semantic_score, similarity) :=
    _semantic_score transcript description in
  let rubric_score := _rubric_driven_score transcript_lower keywords in
  let combined_score :=
    rule_score * (4 # 10) + semantic_score * (4 # 10)
    + rubric_score * (2 # 10) in
  let final_score := normalize_score combined_score in
  let keyword_matches :=
    find_keyword_matches word_tokenize transcript keywords in
  let word_count := count_words word_tokenize transcript in
  let word_count_status :=
    get_word_count_status word_count min_words max_words in
  {| criterion := criterion_name;
     score := round2 final_score;
     weight := weight;
     keywords_found := found keyword_matches;
     keywords_missing := missing keyword_matches;
     keyword_match_rate := round2 (match_rate keyword_matches);
     semantic_similarity := round2 similarity;
     cr_word_count_status := word_count_status;
     breakdown := {| rule_based := round2 rule_score;
                     semantic := round2 semantic_score;
                     rubric_driven := round2 rubric_score |} |}.

(** The body of the loop of [score_transcript], for one row. *)
Definition score_row (transcript transcript_lower : str) (row : rubric_row)
  : criterion_result :=
  _score_criterion transcript transcript_lower
    (Criterion row) (Description row) (parse_keywords (Keywords row))
    (Weight row) (Min_Words row) (Max_Words row).

(** [ScoringEngine.score_transcript], on the rubric the engine holds. *)
Definition score_transcript (rubric : list rubric_row) (transcript : str)
  : result report :=
  let transcript := preprocess_text transcript in
  let transcript_lower := lower transcript in
  text_quality <- analyze_text_quality word_tokenize sent_tokenize transcript ;;
  let criteria_scores := map (score_row transcript transcript_lower) rubric in
  let scores := map score criteria_scores in
  let weights := map weight criteria_scores in
  let overall_score := calculate_weighted_average scores weights in
  Ok {| overall_score := round2 overall_score;
        word_count := tq_word_count text_quality;
        criteria_scores := criteria_scores;
        quality := text_quality |}.

End Scoring.

End Engine.

(** ** The body of a request *)

Module Json.

(** The value [request.get_json()] returns, as [json.loads] builds it.  An
    object is given by its members in the order of the text; the [dict] made
    of them keeps, for a key that occurs twice, the later member. *)
Inductive json : Type :=
| JNull
| JBool (b : bool)
| JInt (n : Z)
| JFloat (x : PrimFloat.float)
| JString (s : str)
| JArray (items : list json)
| JObject (members : list (str * json)).

(** The truth value of Python: [None], [False], a zero and the empty
    string, list and dict are false. *)
Definition truthy (v : json) : bool :=
  match v with
  | JNull => false
  | JBool b => b
  | JInt n => negb (n =? 0)%Z
  | JFloat x => negb (PrimFloat.eqb x PrimFloat.zero)
  | JString [] => false
  | JArray [] => false
  | JObject [] => false
  | _ => true
  end.

(** The value a [dict] holds for [key], if it holds one. *)
Definition lookup (key : str) (members : list (str * json)) : option json :=
  fold_left
    (fun found member =>
       if str_eq_dec (fst member) key then Some (snd member) else found)
    members None.

(** [key in v] for a string [key]: a key of a dict, an element of a list, a
    substring of a string; the other values are not containers. *)
Definition contains_key (key : str) (v : json) : result bool :=
  match v with
  | JObject members =>
      Ok (match lookup key members with Some _ => true | None => false end)
  | JArray items =>
      Ok (existsb
            (fun item =>
               match item with
               | JString s => if str_eq_dec s key then true else false
               | _ => false
               end)
            items)
  | JString s => Ok (contains key s)
  | _ => Raise TypeError
  end.

(** [v[key]] for a string [key]: only a dict is indexed by strings. *)
Definition getitem (v : json) (key : str) : result json :=
  match v with
  | JObject members =>
      match lookup key members with
      | Some x => Ok x
      | None => Raise KeyError
      end
  | _ => Raise TypeError
  end.

End Json.

(** ** app.py: the score endpoint *)

Module App.

Import Utils NLP Engine Json.

(** The answer the handler builds and hands to [jsonify]: an error with its
    status 400; status 500 with the error
    ['Internal server error: ' + str(e)] for the exception [e] caught by the
    handler; or the report with its category.  The timestamps are left
    out. *)
Inductive response : Type :=
| Failure (status : Z) (error : str)
| InternalError (e : exn)
| Success (data : report) (score_category : str).

(** The calls that are traced: the creation of the engine, which succeeds
    or raises, and the scoring of a transcript.  (The call of
    [get_rubric_info] by the rubric endpoint is not traced.) *)
Inductive event : Type :=
| InitEngine
| InitFailed (e : exn)
| ScoreTranscript (transcript : str).

(** The global [scoring_engine]: [None] until a request has created it, then
    the engine with its rubric. *)
Definition engine_state : Type := option (list rubric_row).

(** [init_scoring_engine].  [create] is what [get_scoring_engine()] does
    when it is called during this request: it returns the engine with the
    rubric [load_rubric] has read, or raises.  An exception is raised again
    and the global stays [None].  The last component is the global after the
    call, or the exception. *)
Definition init_scoring_engine (create : result (list rubric_row))
    (st : engine_state)
  : engine_state * list event * result (list rubric_row) :=
  match st with
  | Some engine_rubric => (st, [], Ok engine_rubric)
  | None =>
      match create with
      | Ok engine_rubric =>
          (Some engine_rubric, [InitEngine], Ok engine_rubric)
      | Raise e => (None, [InitFailed e], Raise e)
      end
  end.

Section Endpoint.

Variable word_tokenize : str -> list str.
Variable sent_tokenize : str -> list str.
Variable cosine : str -> str -> Q.

(** The handler of [POST /api/score].  [body] is what [request.get_json()]
    does.  The result is the engine after the request, the calls made to
    the engine, and the answer.  Every exception raised on the way is caught
    by the handler and answered with status 500.  On a [transcript] that is
    not a string, [validate_transcript] answers 'Transcript is empty' when
    the value is false ([not transcript]) and raises [AttributeError]
    otherwise ([transcript.strip()]). *)
Definition score_endpoint (create : result (list rubric_row))
    (st : engine_state) (body : result json)
  : engine_state * list event * response :=
  match body with
  | Raise e => (st, [], InternalError e)
  | Ok data =>
      if negb (truthy data) then
        (st, [], Failure 400 (lit "Missing transcript in request body"))
      else
        match contains_key (lit "transcript") data with
        | Raise e => (st, [], InternalError e)
        | Ok false =>
            (st, [], Failure 400 (lit "Missing transcript in request body"))
        | Ok true =>
            match getitem data (lit "transcript") with
            | Raise e => (st, [], InternalError e)
            | Ok (JString transcript) =>
                let validation := validate_transcript transcript in
                if negb (valid validation) then
                  (st, [], Failure 400 (message validation))
                else
                  match init_scoring_engine create st with
                  | (st', init_events, Raise e) =>
                      (st', init_events, InternalError e)
                  | (st', init_events, Ok engine_rubric) =>
                      let events :=
                        init_events ++ [ScoreTranscript transcript] in
                      match score_transcript word_tokenize sent_tokenize
                              cosine engine_rubric transcript with
                      | Ok result =>
                          (st', events,
                           Success result
                             (get_score_category (overall_score result)))
                      | Raise e => (st', events, InternalError e)
                      end
                  end
            | Ok transcript =>
                if truthy transcript then
                  (st, [], InternalError AttributeError)
                else (st, [], Failure 400 (lit "Transcript is empty"))
            end
        end
  end.

End Endpoint.

(** The body [{"transcript": transcript}]. *)
Definition transcript_request (transcript : str) : result json :=
  Ok (JObject [(lit "transcript", JString transcript)]).

End App.

(** ** More of Python: joins, slices and ranges *)

Module PySeq.

(** [sep.join(xs)]. *)
Fixpoint join (sep : str) (xs : list str) : str :=
  match xs with
  | [] => []
  | x :: r =>
      match r with
      | [] => x
      | _ => x ++ sep ++ join sep r
      end
  end.

(** The bound of a slice as Python reads it on a sequence of length [n]: a
    negative index counts from the end, and the result is brought into
    [0, n]. *)
Definition slice_index (n i : Z) : Z :=
  let i := if (i <? 0)%Z then (i + n)%Z else i in
  if (i <? 0)%Z then 0%Z else if (i >? n)%Z then n else i.

(** [xs[start:stop]]. *)
Definition slice {A} (xs : list A) (start stop : Z) : list A :=
  let n := len xs in
  let a := slice_index n start in
  let b := slice_index n stop in
  firstn (Z.to_nat (b - a)) (skipn (Z.to_nat a) xs).

(** [range(n)]. *)
Definition range (n : Z) : list Z := map Z.of_nat (seq 0 (Z.to_nat n)).

(** [enumerate(xs)]. *)
Definition enumerate {A} (xs : list A) : list (Z * A) :=
  combine (range (len xs)) xs.

End PySeq.

Import PySeq.

(** ** utils.py: the feedback text *)

Module Feedback.

Import Utils.

(** The clause on the keywords found, if any. *)
Definition found_clause (keywords_found : list str) : list str :=
  if is_empty keywords_found then []
  else if (len keywords_found >? 3)%Z then
    [lit "Strong keyword coverage with terms like '"
     ++ nth 0 keywords_found [] ++ lit "', '"
     ++ nth 1 keywords_found [] ++ lit "', and "
     ++ str_of_int (len keywords_found - 2) ++ lit " more."]
  else
    [lit "Found keywords: "
     ++ join (lit ", ") (slice keywords_found 0 3) ++ lit "."].

(** The clause on the keywords missing, if any. *)
Definition missing_clause (keywords_missing : list str) : list str :=
  if negb (is_empty keywords_missing) && (len keywords_missing <=? 3)%Z then
    [lit "Consider including: "
     ++ join (lit ", ") keywords_missing ++ lit "."]
  else if negb (is_empty keywords_missing) then
    [lit "Missing " ++ str_of_int (len keywords_missing)
     ++ lit " suggested keywords."]
  else [].

(** The list [feedback_parts] that [format_feedback] builds before joining
    it. *)
Definition feedback_parts (criterion : str) (score : Q)
    (keywords_found keywords_missing : list str) (semantic_similarity : Q)
    (word_count min_words max_words : Z) : list str :=
  let feedback_parts := [] in
  let feedback_parts :=
    if Qgeb score 90 then feedback_parts ++ [lit "Excellent performance."]
    else if Qgeb score 75 then feedback_parts ++ [lit "Good performance."]
    else if Qgeb score 60
    then feedback_parts ++ [lit "Satisfactory performance."]
    else if Qgeb score 40 then feedback_parts ++ [lit "Needs improvement."]
    else feedback_parts ++ [lit "Requires significant improvement."] in
  let feedback_parts := feedback_parts ++ found_clause keywords_found in
  let feedback_parts := feedback_parts ++ missing_clause keywords_missing in
  let feedback_parts :=
    if Qgeb semantic_similarity (75 # 100)
    then feedback_parts ++ [lit "Strong semantic alignment with criterion."]
    else if Qgeb semantic_similarity (5 # 10)
    then feedback_parts ++ [lit "Moderate semantic relevance."]
    else if Qltb semantic_similarity (5 # 10)
    then feedback_parts
         ++ [lit "Consider addressing this aspect more directly."]
    else feedback_parts in
  let feedback_parts :=
    if ((min_words >? 0) && (max_words <? 999))%Z then
      if (word_count <? min_words)%Z then
        feedback_parts
        ++ [lit "Content is brief (" ++ str_of_int word_count
            ++ lit " words). Consider expanding (recommended: "
            ++ str_of_int min_words ++ lit "+ words)."]
      else if (word_count >? max_words)%Z then
        feedback_parts
        ++ [lit "Content is lengthy (" ++ str_of_int word_count
            ++ lit " words). Consider being more concise (recommended: under "
            ++ str_of_int max_words ++ lit " words)."]
      else
        feedback_parts
        ++ [lit "Good length (" ++ str_of_int word_count ++ lit " words)."]
    else feedback_parts in
  feedback_parts.

(** [format_feedback]. *)
Definition format_feedback (criterion : str) (score : Q)
    (keywords_found keywords_missing : list str) (semantic_similarity : Q)
    (word_count min_words max_words : Z) : str :=
  join (lit " ")
    (feedback_parts criterion score keywords_found keywords_missing
       semantic_similarity word_count min_words max_words).

End Feedback.

(** ** nlp_processor.py: keywords, phrases and relevance *)

Module NLPText.

Import Utils NLP.

Section Tokenizer.

Variable word_tokenize : str -> list str.

(** The set [stopwords.words('english')] of NLTK. *)
Variable stop_words : list str.

(** [NLPProcessor.extract_keywords]. *)
Definition extract_keywords (text : str) (remove_stopwords : bool)
  : list str :=
  let words := word_tokenize (lower text) in
  if remove_stopwords
  then filter (fun w => isalnum w && negb (mem w stop_words)) words
  else filter isalnum words.

(** [NLPProcessor.extract_phrases]. *)
Definition extract_phrases (text : str) (phrase_length : Z) : list str :=
  let words := word_tokenize (lower text) in
  let words := filter isalnum words in
  map (fun i => join (lit " ") (slice words i (i + phrase_length)))
      (range (len words - phrase_length + 1)).

End Tokenizer.

Section Relevance.

Variable cosine : str -> str -> Q.

(** [NLPProcessor.score_semantic_relevance]: the mean of the similarities
    to the references, 0 without references. *)
Definition score_semantic_relevance (text : str)
    (reference_texts : list str) : Q :=
  if is_empty reference_texts then 0
  else
    let similarities :=
      map (fun ref => calculate_similarity cosine text ref)
          reference_texts in
    sum similarities / inject_Z (len similarities).

End Relevance.

End NLPText.

(** ** scoring_engine.py: the rubric summary *)

Module RubricInfo.

Import Utils Engine.

(** One entry of the [criteria] list of [get_rubric_info]. *)
Record criterion_info : Type := {
  name : str;
  info_weight : Q;
  keyword_count : Z
}.

(** The dictionary [get_rubric_info] returns. *)
Record rubric_info : Type := {
  criteria_count : Z;
  total_weight : Q;
  criteria : list criterion_info
}.

(** [ScoringEngine.get_rubric_info], on the rubric the engine holds. *)
Definition get_rubric_info (rubric : list rubric_row) : rubric_info :=
  {| criteria_count := len rubric;
     total_weight := sum (map Weight rubric);
     criteria :=
       map (fun row =>
              {| name := Criterion row;
                 info_weight := Weight row;
                 keyword_count := len (parse_keywords (Keywords row)) |})
           rubric |}.

End RubricInfo.

(** ** app.py: the batch endpoint and the rubric endpoint *)

Module Batch.

Import Utils NLP Engine Json App.

(** One entry of the results: a report with its id and category; an id with
    the message of the validation; or an id with the error [str(e)] of the
    exception [e] raised by the scoring. *)
Inductive item : Type :=
| Scored (id : Z) (data : report) (score_category : str)
| Errored (id : Z) (error : str)
| Raised (id : Z) (e : exn).

(** The answer the handler builds and hands to [jsonify]: an error with its
    status 400; status 500 for an exception caught by the outer handler; or
    the results with their count.  The timestamps are left out. *)
Inductive batch_response : Type :=
| BatchFailure (status : Z) (error : str)
| BatchInternalError (e : exn)
| BatchSuccess (data : list item) (count : Z).

(** The answer [GET /api/rubric] builds and hands to [jsonify]: status 500
    with the error [str(e)], or the summary of the rubric. *)
Inductive rubric_response : Type :=
| RubricError (e : exn)
| RubricSuccess (data : RubricInfo.rubric_info).

Section Endpoint.

Variable word_tokenize : str -> list str.
Variable sent_tokenize : str -> list str.
Variable cosine : str -> str -> Q.

(** The loop of [batch_score] over the enumerated transcripts, with the
    results and the calls made so far.  The validation is outside the inner
    [try]: on a transcript that is not a string and not false it raises
    [AttributeError], which ends the loop.  An exception of the scoring is
    kept in the entry of the transcript. *)
Fixpoint batch_loop (engine_rubric : list rubric_row)
    (transcripts : list (Z * json)) (results : list item)
    (events : list event) : list event * result (list item) :=
  match transcripts with
  | [] => (events, Ok results)
  | (i, JString transcript) :: rest =>
      let validation := validate_transcript transcript in
      if valid validation then
        match score_transcript word_tokenize sent_tokenize cosine
                engine_rubric transcript with
        | Ok score_result =>
            batch_loop engine_rubric rest
              (results
               ++ [Scored (i + 1) score_result
                     (get_score_category (overall_score score_result))])
              (events ++ [ScoreTranscript transcript])
        | Raise e =>
            batch_loop engine_rubric rest
              (results ++ [Raised (i + 1) e])
              (events ++ [ScoreTranscript transcript])
        end
      else
        batch_loop engine_rubric rest
          (results ++ [Errored (i + 1) (message validation)]) events
  | (i, transcript) :: rest =>
      if truthy transcript then (events, Raise AttributeError)
      else
        batch_loop engine_rubric rest
          (results ++ [Errored (i + 1) (lit "Transcript is empty")]) events
  end.

(** The handler of [POST /api/batch-score]; [create] and [body] are as for
    the score endpoint.  The engine is created before the loop. *)
Definition batch_score (create : result (list rubric_row))
    (st : engine_state) (body : result json)
  : engine_state * list event * batch_response :=
  match body with
  | Raise e => (st, [], BatchInternalError e)
  | Ok data =>
      if negb (truthy data) then
        (st, [],
         BatchFailure 400 (lit "Missing transcripts array in request body"))
      else
        match contains_key (lit "transcripts") data with
        | Raise e => (st, [], BatchInternalError e)
        | Ok false =>
            (st, [],
             BatchFailure 400
               (lit "Missing transcripts array in request body"))
        | Ok true =>
            match getitem data (lit "transcripts") with
            | Raise e => (st, [], BatchInternalError e)
            | Ok (JArray transcripts) =>
                match init_scoring_engine create st with
                | (st', init_events, Raise e) =>
                    (st', init_events, BatchInternalError e)
                | (st', init_events, Ok engine_rubric) =>
                    match batch_loop engine_rubric (enumerate transcripts)
                            [] init_events with
                    | (events, Ok results) =>
                        (st', events, BatchSuccess results (len results))
                    | (events, Raise e) =>
                        (st', events, BatchInternalError e)
                    end
                end
            | Ok _ =>
                (st, [], BatchFailure 400 (lit "Transcripts must be an array"))
            end
        end
  end.

(** The body [{"transcripts": transcripts}]. *)
Definition batch_request (transcripts : list json) : result json :=
  Ok (JObject [(lit "transcripts", JArray transcripts)]).

(** The handler of [GET /api/rubric]. *)
Definition get_rubric (create : result (list rubric_row))
    (st : engine_state) : engine_state * list event * rubric_response :=
  match init_scoring_engine create st with
  | (st', init_events, Raise e) => (st', init_events, RubricError e)
  | (st', init_events, Ok engine_rubric) =>
      (st', init_events,
       RubricSuccess (RubricInfo.get_rubric_info engine_rubric))
  end.

(** A request to one of the three endpoints that use the engine, with what
    [get_scoring_engine()] does if it is called during the request. *)
Inductive request : Type :=
| ScoreRequest (create : result (list rubric_row)) (body : result json)
| BatchRequest (create : result (list rubric_row)) (body : result json)
| RubricRequest (create : result (list rubric_row)).

(** The server on a sequence of requests: the global engine is handed from
    one request to the next, and the calls to the engine are collected. *)
Fixpoint serve (st : engine_state) (requests : list request)
  : engine_state * list event :=
  match requests with
  | [] => (st, [])
  | ScoreRequest create body :: rest =>
      let '(st', events, _) :=
        score_endpoint word_tokenize sent_tokenize cosine create st body in
      let (st'', events') := serve st' rest in
      (st'', events ++ events')
  | BatchRequest create body :: rest =>
      let '(st', events, _) := batch_score create st body in
      let (st'', events') := serve st' rest in
      (st'', events ++ events')
  | RubricRequest create :: rest =>
      let '(st', events, _) := get_rubric create st in
      let (st'', events') := serve st' rest in
      (st'', events ++ events')
  end.

End Endpoint.

End Batch.

(** ** Auxiliary notions for the properties below *)

Module Notions.

(** The six categories of [get_score_category], from the lowest. *)
Definition category_rank (category : str) : Z :=
  if str_eq_dec category (lit "Excellent") then 5
  else if str_eq_dec category (lit "Very Good") then 4
  else if str_eq_dec category (lit "Good") then 3
  else if str_eq_dec category (lit "Satisfactory") then 2
  else if str_eq_dec category (lit "Fair") then 1
  else 0.

(** The number of times the keywords occur in the transcript, the
    [total_occurrences] of [_rubric_driven_score]. *)
Definition total_occurrences (transcript_lower : str) (keywords : list str)
  : Z :=
  fold_left Z.add
    (map (fun kw => Z.of_nat (count transcript_lower (lower kw))) keywords)
    0%Z.

(** A keyword as [parse_keywords] returns them: not empty, stripped, and
    without a comma. *)
Definition is_keyword (k : str) : Prop :=
  k <> [] /\ strip k = k /\ Forall (fun c => c <> ","%char) k.

(** A string that is not empty, the test [if k] of [parse_keywords]. *)
Definition nonempty (k : str) : bool :=
  match k with [] => false | _ => true end.

(** A word: a string that is not empty and has no whitespace. *)
Definition is_word (w : str) : bool :=
  negb (Utils.is_empty w) && forallb (fun c => negb (isspace c)) w.

(** The number of [InitEngine] events of a trace. *)
Definition init_count (events : list App.event) : nat :=
  length (filter (fun e => match e with App.InitEngine => true | _ => false end)
            events).

(** A failed creation of the engine. *)
Definition is_init_failure (e : App.event) : bool :=
  match e with App.InitFailed _ => true | _ => false end.

(** A call that scores a transcript. *)
Definition is_score (e : App.event) : bool :=
  match e with App.ScoreTranscript _ => true | _ => false end.

(** The engine a request works with when it needs one: the one the server
    holds, or the one created during the request; [None] when that creation
    raises. *)
Definition loaded (create : Py.result (list Engine.rubric_row))
    (st : App.engine_state) : option (list Engine.rubric_row) :=
  match st with
  | Some r => Some r
  | None =>
      match create with
      | Ok r => Some r
      | Raise _ => None
      end
  end.

(** The creation of the engine by a request that needs it, when the server
    holds none. *)
Definition init_events (create : Py.result (list Engine.rubric_row))
    (st : App.engine_state) : list App.event :=
  match st with
  | Some _ => []
  | None =>
      match create with
      | Ok _ => [App.InitEngine]
      | Raise e => [App.InitFailed e]
      end
  end.

(** The member [key] of a body that is a JSON object. *)
Definition field (key : str) (body : Py.result Json.json)
  : option Json.json :=
  match body with
  | Ok (Json.JObject members) => Json.lookup key members
  | _ => None
  end.

(** What [get_scoring_engine()] does during a request. *)
Definition request_create (req : Batch.request)
  : Py.result (list Engine.rubric_row) :=
  match req with
  | Batch.ScoreRequest create _ => create
  | Batch.BatchRequest create _ => create
  | Batch.RubricRequest create => create
  end.

(** The verdict of the validation on a transcript. *)
Definition is_valid (transcript : str) : bool :=
  Utils.valid (Utils.validate_transcript transcript).

(** A transcript of a batch on which the validation returns instead of
    raising: a string, or a value that is false. *)
Definition checkable (v : Json.json) : bool :=
  match v with
  | Json.JString _ => true
  | _ => negb (Json.truthy v)
  end.

(** The transcripts of a batch that are scored: the valid strings. *)
Definition valid_strings (transcripts : list Json.json) : list str :=
  flat_map
    (fun v =>
       match v with
       | Json.JString s => if is_valid s then [s] else []
       | _ => []
       end)
    transcripts.

(** The [id] of an entry of the batch results. *)
Definition item_id (it : Batch.item) : Z :=
  match it with
  | Batch.Scored id _ _ => id
  | Batch.Errored id _ => id
  | Batch.Raised id _ => id
  end.

(** An entry of the batch results, with id [id], says what the score
    endpoint answers on the same transcript: the same report and category,
    or the same message with status 400, or the same exception (whose text
    the score endpoint prefixes and answers with status 500). *)
Definition entry_matches (id : Z) (answer : App.response)
    (entry : Batch.item) : Prop :=
  match answer, entry with
  | App.Success rep category, Batch.Scored id' rep' category' =>
      id' = id /\ rep' = rep /\ category' = category
  | App.Failure status error, Batch.Errored id' error' =>
      id' = id /\ status = 400%Z /\ error' = error
  | App.InternalError e, Batch.Raised id' e' => id' = id /\ e' = e
  | _, _ => False
  end.

(** What one request does to the engine.  If the server holds it, it is kept
    and the calls score transcripts.  If not, either it still holds none and
    the calls are failed creations, or the engine has been created with the
    rubric [create] returns, and the other calls, all after the creation,
    score transcripts. *)
Definition step_ok (create : Py.result (list Engine.rubric_row))
    (st st' : App.engine_state) (events : list App.event) : Prop :=
  match st with
  | Some r => st' = Some r /\ forallb is_score events = true
  | None =>
      (st' = None /\ forallb is_init_failure events = true) \/
      (exists r calls,
          create = Ok r /\ st' = Some r /\
          events = App.InitEngine :: calls /\
          forallb is_score calls = true)
  end.

End Notions.

(** ** The specification's own words

    Definitions written from the specification, to be compared with the
    functions of the source above. *)

Module Spec.

(** The sum of a list of numbers. *)
Definition sigma (xs : list Q) : Q := fold_right Qplus 0 xs.

(** The weighted mean: the sum of score times weight, divided by the sum of
    the weights. *)
Definition weighted_mean (scores weights : list Q) : Q :=
  sigma (map (fun sw => fst sw * snd sw) (combine scores weights))
  / sigma weights.

(** The keyword-presence term of the rule-based sub-score: 70 times the
    share of the keywords found as substrings, or 35 without keywords. *)
Definition presence_score (transcript_lower : str) (keywords : list str)
  : Q :=
  match keywords with
  | [] => 35
  | _ => 70 * (inject_Z (Engine.present_keywords transcript_lower keywords)
               / inject_Z (len keywords))
  end.

(** The length term of the rule-based sub-score. *)
Definition length_term (word_count min_words max_words : Z) : Q :=
  if ((min_words =? 0) && (999 <=? max_words))%Z then 30
  else if ((min_words <=? word_count) && (word_count <=? max_words))%Z
  then 30
  else if (word_count <? min_words)%Z then
    let ratio := if (min_words =? 0)%Z then 1
                 else inject_Z word_count / inject_Z min_words in
    30 * (if Qle_bool ratio 1 then ratio else 1)
  else 20.

(** A keyword appears in a text: as a substring of the case-folded text, or
    as one of the tokens of the case-folded text. *)
Definition appears (word_tokenize : str -> list str) (text keyword : str)
  : bool :=
  contains (lower keyword) (lower text)
  || mem (lower keyword) (word_tokenize (lower text)).


(** Every run of whitespace is a single space: each whitespace character is
    a space and the character after it, if any, is not whitespace. *)
Fixpoint runs_collapsed (s : str) : bool :=
  match s with
  | [] => true
  | a :: r =>
      (if isspace a
       then Ascii.eqb a " "%char
            && match r with [] => true | b :: _ => negb (isspace b) end
       else true)
      && runs_collapsed r
  end.

(** A character that is not whitespace. *)
Definition nonspace (c : ascii) : bool := negb (isspace c).


End Spec.

(** ** Sample collaborators

    Stand-ins for the external tokenizers and for the embedding model, used
    to run the functions on concrete inputs.  The word tokenizer cuts at
    whitespace, which is what NLTK's does on the inputs below; the sentence
    tokenizer takes a text that is not blank as one sentence, and no result
    below depends on where sentences end; the cosine is a constant. *)

Module Sample.

Definition word_tokenize : str -> list str := split.

Definition sent_tokenize (text : str) : list str :=
  match strip text with
  | [] => []
  | sentence => [sentence]
  end.

Definition cosine (c : Q) : str -> str -> Q := fun _ _ => c.

Definition row (keywords : string) (w : Q) (lo hi : Z) : Engine.rubric_row :=
  {| Engine.Criterion := lit "Clarity";
     Engine.Description := lit "Speaks clearly";
     Engine.Keywords := Some (lit keywords);
     Engine.Weight := w;
     Engine.Min_Words := lo;
     Engine.Max_Words := hi |}.

End Sample.

(** * Properties *)

(** ** Numbers *)

Section Numbers.

Lemma Qltb_spec (a b : Q) : reflect (a < b) (Qltb a b).
Proof.
  unfold Qltb. destruct (Qle_bool b a) eqn:E; constructor.
  - apply Qle_bool_iff in E. lra.
  - destruct (Qlt_le_dec a b) as [H | H]; [exact H |].
    apply Qle_bool_iff in H. congruence.
Qed.

Lemma Qgeb_spec (a b : Q) : reflect (b <= a) (Qgeb a b).
Proof.
  unfold Qgeb. destruct (Qle_bool b a) eqn:E; constructor.
  - now apply Qle_bool_iff.
  - intro H. apply Qle_bool_iff in H. congruence.
Qed.

Lemma min_spec (a b : Q) :
  (b < a /\ Py.min a b = b) \/ (a <= b /\ Py.min a b = a).
Proof.
  unfold Py.min. destruct (Qltb_spec b a); [left | right]; split; auto; lra.
Qed.

Lemma max_spec (a b : Q) :
  (a < b /\ Py.max a b = b) \/ (b <= a /\ Py.max a b = a).
Proof.
  unfold Py.max. destruct (Qltb_spec a b); [left | right]; split; auto; lra.
Qed.

Lemma normalize_score_range (x : Q) :
  0 <= Utils.normalize_score x <= 100.
Proof.
  unfold Utils.normalize_score, Utils.normalize_score_in.
  destruct (min_spec 100 x) as [[H1 E1] | [H1 E1]]; rewrite E1;
    destruct (max_spec 0 x) as [[H2 E2] | [H2 E2]];
    destruct (max_spec 0 100) as [[H3 E3] | [H3 E3]];
    rewrite ?E2, ?E3; lra.
Qed.

Lemma normalize_score_id (x : Q) :
  0 <= x <= 100 -> Utils.normalize_score x == x.
Proof.
  intros Hx. unfold Utils.normalize_score, Utils.normalize_score_in.
  destruct (min_spec 100 x) as [[H1 E1] | [H1 E1]]; rewrite E1;
    destruct (max_spec 0 x) as [[H2 E2] | [H2 E2]];
    destruct (max_spec 0 100) as [[H3 E3] | [H3 E3]];
    rewrite ?E2, ?E3; lra.
Qed.

Lemma fold_left_Qplus (xs : list Q) (acc : Q) :
  fold_left Qplus xs acc == acc + Spec.sigma xs.
Proof.
  revert acc. induction xs as [| x xs IH]; intros acc; simpl.
  - lra.
  - rewrite IH. lra.
Qed.

Lemma sum_sigma (xs : list Q) : Py.sum xs == Spec.sigma xs.
Proof. unfold Py.sum. rewrite fold_left_Qplus. lra. Qed.

Lemma sigma_Permutation (xs ys : list Q) :
  Permutation xs ys -> Spec.sigma xs == Spec.sigma ys.
Proof.
  induction 1; simpl; lra.
Qed.



Lemma inject_Z_le (a b : Z) : (a <= b)%Z -> inject_Z a <= inject_Z b.
Proof. intros. now rewrite <- Zle_Qle. Qed.


End Numbers.

(** ** utils.py *)

Section UtilsFacts.

Import Utils.

Lemma map_snd_combine {A B : Type} (xs : list A) (ys : list B) :
  length xs = length ys -> map snd (combine xs ys) = ys.
Proof.
  revert ys. induction xs as [| x xs IH]; intros [| y ys] E; simpl in *;
    try discriminate; auto.
  f_equal. apply IH. congruence.
Qed.

Lemma len_eqb_refl {A B : Type} (xs : list A) (ys : list B) :
  length xs = length ys -> (len xs =? len ys)%Z = true.
Proof. intros E. unfold len. rewrite E. apply Z.eqb_refl. Qed.

(** On lists of equal length the function is the weighted mean, or 0 when
    the weights add up to 0 (which covers the empty lists). *)
Lemma calculate_weighted_average_char (scores weights : list Q) :
  length scores = length weights ->
  calculate_weighted_average scores weights ==
  if Qeq_bool (Spec.sigma weights) 0 then 0
  else Spec.weighted_mean scores weights.
Proof.
  intros E. unfold calculate_weighted_average.
  rewrite (len_eqb_refl _ _ E). simpl negb. rewrite orb_false_r.
  destruct scores as [| s scores], weights as [| w weights];
    try discriminate; simpl is_empty; simpl orb.
  - reflexivity.
  - cbv zeta. unfold Spec.weighted_mean.
    destruct (Qeq_bool (Py.sum (w :: weights)) 0) eqn:E1;
      destruct (Qeq_bool (Spec.sigma (w :: weights)) 0) eqn:E2.
    + reflexivity.
    + apply Qeq_bool_iff in E1. apply Qeq_bool_neq in E2.
      rewrite sum_sigma in E1. contradiction.
    + apply Qeq_bool_iff in E2. apply Qeq_bool_neq in E1.
      rewrite sum_sigma in E1. contradiction.
    + rewrite !sum_sigma. reflexivity.
Qed.

Lemma Qeq_bool_comp (a b : Q) : a == b -> Qeq_bool a 0 = Qeq_bool b 0.
Proof.
  intros E. destruct (Qeq_bool a 0) eqn:Ea, (Qeq_bool b 0) eqn:Eb; auto.
  - apply Qeq_bool_iff in Ea. apply Qeq_bool_neq in Eb. rewrite E in Ea.
    contradiction.
  - apply Qeq_bool_iff in Eb. apply Qeq_bool_neq in Ea. rewrite E in Ea.
    contradiction.
Qed.

(** C5. In exact arithmetic, on two lists of equal length
    [calculate_weighted_average] returns the weighted mean, the sum of score
    times weight over the sum of the weights; it returns 0 when the lists are
    empty or the weights add up to 0; and the same permutation applied to
    both lists, that is a permutation of the (score, weight) pairs, leaves
    the result unchanged.  On binary64 numbers the function returns 0 as
    well when a list is empty or the rounded sum of the weights is 0; the
    permutation can change its result there, as the counterexample below
    shows. *)
Theorem calculate_weighted_average_weighted_mean :
  forall scores weights : list Q,
    length scores = length weights ->
    (~ Spec.sigma weights == 0 ->
     calculate_weighted_average scores weights
     == Spec.weighted_mean scores weights) /\
    (scores = [] \/ Spec.sigma weights == 0 ->
     calculate_weighted_average scores weights == 0) /\
    (forall scores' weights' : list Q,
        length scores' = length weights' ->
        Permutation (combine scores weights) (combine scores' weights') ->
        calculate_weighted_average scores weights
        == calculate_weighted_average scores' weights') /\
    (forall fscores fweights : list PrimFloat.float,
        fscores = [] \/ fweights = [] \/
        PrimFloat.eqb (sum_binary64 fweights) PrimFloat.zero = true ->
        calculate_weighted_average_binary64 fscores fweights
        = PrimFloat.zero).
Proof.
  intros scores weights E.
  split; [| split; [| split]].
  4:{ intros fscores fweights [-> | [-> | Z]];
        unfold calculate_weighted_average_binary64.
      - reflexivity.
      - cbn [is_empty]. now rewrite orb_true_r.
      - destruct (is_empty fscores || is_empty fweights
                  || negb (len fscores =? len fweights)%Z);
          [reflexivity |]. cbv zeta. now rewrite Z. }
  - intros NZ. rewrite (calculate_weighted_average_char _ _ E).
    destruct (Qeq_bool (Spec.sigma weights) 0) eqn:E0; [| reflexivity].
    apply Qeq_bool_iff in E0. contradiction.
  - intros [-> | Z0].
    + reflexivity.
    + rewrite (calculate_weighted_average_char _ _ E).
      apply Qeq_bool_iff in Z0. now rewrite Z0.
  - intros scores' weights' E' P.
    rewrite (calculate_weighted_average_char _ _ E),
      (calculate_weighted_average_char _ _ E').
    assert (Spec.sigma weights == Spec.sigma weights') as EW.
    { rewrite <- (map_snd_combine _ _ E), <- (map_snd_combine _ _ E').
      apply sigma_Permutation, Permutation_map, P. }
    rewrite (Qeq_bool_comp _ _ EW).
    destruct (Qeq_bool (Spec.sigma weights') 0); [reflexivity |].
    unfold Spec.weighted_mean. rewrite EW.
    rewrite (sigma_Permutation _ _ (Permutation_map _ P)). reflexivity.
Qed.

Lemma calculate_weighted_average_weighted_mean_witness :
  length [80; 90; 70] = length [2; 3; 1] /\
  calculate_weighted_average [80; 90; 70] [2; 3; 1]
  == calculate_weighted_average [70; 80; 90] [1; 2; 3].
Proof.
  split; [reflexivity |].
  apply (calculate_weighted_average_weighted_mean [80; 90; 70] [2; 3; 1]).
  - reflexivity.
  - reflexivity.
  - simpl. apply Permutation_sym, Permutation_cons_app with (l1 := [_; _]).
    apply Permutation_refl.
Defined.

(** The claim C7 as it is written fails on the sentinel bounds: with no
    lower bound and an upper bound of 999 an empty transcript has exactly
    [min_words] words and is classified [no_limit]. *)
Lemma get_word_count_status_sentinel_counterexample :
  (0 <= 0)%Z /\ (0 <= 999)%Z /\
  get_word_count_status 0 0 999 <> within_range.
Proof. repeat split; try lia. vm_compute. discriminate. Qed.

(** C7, amended. For [min_words >= 0] and [max_words >= min_words], a count
    of exactly [min_words] words is never [too_short]; it is [within_range],
    but for the bounds the code reads as no limit ([min_words = 0] and
    [max_words >= 999]), where it is [no_limit]. *)
Theorem get_word_count_status_at_min_words :
  forall min_words max_words : Z,
    (0 <= min_words)%Z -> (min_words <= max_words)%Z ->
    get_word_count_status min_words min_words max_words <> too_short /\
    get_word_count_status min_words min_words max_words =
    if ((min_words =? 0) && (999 <=? max_words))%Z then no_limit
    else within_range.
Proof.
  intros min_words max_words H0 Hle. unfold get_word_count_status.
  rewrite Z.geb_leb, Z.gtb_ltb.
  destruct ((min_words =? 0) && (999 <=? max_words))%Z.
  - split; [discriminate | reflexivity].
  - rewrite Z.ltb_irrefl.
    destruct (Z.ltb_spec max_words min_words); [lia |].
    split; [discriminate | reflexivity].
Qed.

Lemma get_word_count_status_at_min_words_witness :
  (0 <= 50)%Z /\ (50 <= 200)%Z /\
  get_word_count_status 50 50 200 = within_range.
Proof.
  split; [lia | split; [lia |]].
  apply (get_word_count_status_at_min_words 50 200); lia.
Defined.

End UtilsFacts.

(** ** utils.py: the weighted average on binary64 numbers *)

Section Binary64.

Import Utils PrimFloat.

(** C5, counterexample.  On binary64 numbers a permutation of the
    (score, weight) pairs changes the result: the scores 50, 60, 70 with the
    weights 0.1, 0.2, 0.3 give 63.33333333333332, and the same pairs in the
    reverse order give 63.333333333333336.  The sums of the products are
    both 38; the weights add up to 0.6000000000000001 in one order and to
    0.6 in the other. *)
Lemma calculate_weighted_average_binary64_permutation_counterexample :
  Permutation (combine [50; 60; 70] [0.1; 0.2; 0.3])%float
    (combine [70; 60; 50] [0.3; 0.2; 0.1])%float /\
  calculate_weighted_average_binary64 [50; 60; 70]%float
    [0.1; 0.2; 0.3]%float
  = 63.33333333333332%float /\
  calculate_weighted_average_binary64 [70; 60; 50]%float
    [0.3; 0.2; 0.1]%float
  = 63.333333333333336%float /\
  calculate_weighted_average_binary64 [50; 60; 70]%float
    [0.1; 0.2; 0.3]%float
  <> calculate_weighted_average_binary64 [70; 60; 50]%float
       [0.3; 0.2; 0.1]%float.
Proof.
  split; [| split; [| split]].
  - apply (Permutation_rev [(50, 0.1); (60, 0.2); (70, 0.3)]%float).
  - vm_compute. reflexivity.
  - vm_compute. reflexivity.
  - intros H.
    apply (f_equal (fun x => PrimFloat.eqb x 63.333333333333336%float)) in H.
    vm_compute in H. discriminate H.
Qed.

End Binary64.

(** ** scoring_engine.py: the three sub-scores *)

Section SubScores.

Import Utils NLP Engine.

Lemma normalize_score_eq (x y : Q) :
  x == y -> 0 <= y <= 100 -> normalize_score x == y.
Proof.
  intros E Hy. rewrite normalize_score_id; [exact E | lra].
Qed.

Lemma len_nonneg {A : Type} (xs : list A) : (0 <= len xs)%Z.
Proof. unfold len. lia. Qed.

Lemma len_pos {A : Type} (xs : list A) : xs <> [] -> (0 < len xs)%Z.
Proof. destruct xs; [congruence | unfold len; simpl; lia]. Qed.

Lemma present_keywords_bounds (transcript_lower : str) (keywords : list str) :
  (0 <= present_keywords transcript_lower keywords <= len keywords)%Z.
Proof.
  unfold present_keywords, len. split; [lia |].
  apply Nat2Z.inj_le, filter_length_le.
Qed.

Lemma inject_Z_pos (a : Z) : (0 < a)%Z -> 0 < inject_Z a.
Proof. intros H. change 0 with (inject_Z 0). now rewrite <- Zlt_Qlt. Qed.

Lemma inject_Z_nonneg (a : Z) : (0 <= a)%Z -> 0 <= inject_Z a.
Proof. intros H. change 0 with (inject_Z 0). now rewrite <- Zle_Qle. Qed.

(** A quotient of integers [0 <= a <= b], [0 < b], is a ratio in [0, 1]. *)
Lemma ratio_bounds (a b : Z) :
  (0 <= a <= b)%Z -> (0 < b)%Z -> 0 <= inject_Z a / inject_Z b <= 1.
Proof.
  intros [Ha Hab] Hb.
  pose proof (inject_Z_pos b Hb). pose proof (inject_Z_nonneg a Ha).
  pose proof (inject_Z_le a b Hab).
  split.
  - apply Qle_shift_div_l; lra.
  - apply Qle_shift_div_r; lra.
Qed.

Lemma ratio_lt_1 (a b : Z) :
  (0 <= a < b)%Z -> inject_Z a / inject_Z b < 1.
Proof.
  intros [Ha Hab].
  assert (0 < inject_Z b) by (apply inject_Z_pos; lia).
  apply Qlt_shift_div_r; [assumption |].
  rewrite Qmult_1_l. now rewrite <- Zlt_Qlt.
Qed.

Lemma presence_score_bounds (transcript_lower : str) (keywords : list str) :
  0 <= Spec.presence_score transcript_lower keywords <= 70.
Proof.
  unfold Spec.presence_score. destruct keywords as [| k ks]; [lra |].
  pose proof (present_keywords_bounds transcript_lower (k :: ks)) as B.
  pose proof (ratio_bounds _ _ B (len_pos (k :: ks) ltac:(discriminate))).
  lra.
Qed.

Lemma length_term_bounds (word_count min_words max_words : Z) :
  (0 <= word_count)%Z ->
  0 <= Spec.length_term word_count min_words max_words <= 30.
Proof.
  intros Hwc. unfold Spec.length_term.
  destruct ((min_words =? 0) && (999 <=? max_words))%Z; [lra |].
  destruct ((min_words <=? word_count) && (word_count <=? max_words))%Z;
    [lra |].
  destruct (Z.ltb_spec word_count min_words) as [Hlt | Hge]; [| lra].
  destruct (Z.eqb_spec min_words 0) as [-> | _]; [lia |].
  pose proof (ratio_bounds word_count min_words ltac:(lia) ltac:(lia)).
  cbv zeta.
  destruct (Qle_bool (inject_Z word_count / inject_Z min_words) 1); lra.
Qed.

(** C3. For bounds [0 <= min_words <= max_words] the rule-based sub-score is
    the keyword-presence term plus the length term, and the length term is:
    the full 30 when [min_words = 0] and [max_words >= 999]; otherwise 30
    when the word count is within the bounds, 30 times the ratio of the word
    count to [min_words] (capped at 1) when it is below [min_words], and a
    flat 20 when it is above [max_words]. *)
Theorem rule_based_score_length_term :
  forall (transcript_lower : str) (keywords : list str)
         (min_words max_words : Z),
    (0 <= min_words)%Z -> (min_words <= max_words)%Z ->
    let word_count := len (split transcript_lower) in
    let unbounded := (min_words = 0 /\ 999 <= max_words)%Z in
    let length_term := Spec.length_term word_count min_words max_words in
    _rule_based_score transcript_lower keywords min_words max_words
    == Spec.presence_score transcript_lower keywords + length_term /\
    (unbounded -> length_term == 30) /\
    ((min_words <= word_count <= max_words)%Z -> length_term == 30) /\
    ((word_count < min_words)%Z ->
     length_term
     == 30 * Py.min (inject_Z word_count / inject_Z min_words) 1) /\
    (~ unbounded -> (word_count > max_words)%Z -> length_term == 20).
Proof.
  intros tl kws lo hi Hlo Hhi wc unbounded length_term.
  pose proof (len_nonneg (split tl)) as Hwc. fold wc in Hwc.
  split; [| repeat split].
  - pose proof (presence_score_bounds tl kws) as HP.
    pose proof (length_term_bounds wc lo hi Hwc) as HL.
    fold length_term in HL.
    assert ((if negb (is_empty kws)
             then 0 + truediv (present_keywords tl kws) (len kws) * 70
             else 0 + 35) == Spec.presence_score tl kws) as HK.
    { unfold Spec.presence_score, truediv.
      destruct kws; cbn [negb is_empty]; [lra |].
      set (r := _ / _). lra. }
    unfold _rule_based_score. cbv zeta. fold wc.
    set (K := if negb (is_empty kws) then _ else _) in *.
    apply normalize_score_eq; [| lra].
    rewrite <- HK. clear HK HP HL.
    unfold length_term, Spec.length_term.
    rewrite !Z.gtb_ltb.
    destruct (Z.ltb_spec 0 lo) as [Hpos | Hzero].
    + simpl orb. destruct (Z.eqb_spec lo 0) as [-> | _]; [lia |].
      simpl andb.
      destruct ((lo <=? wc) && (wc <=? hi))%Z; [reflexivity |].
      destruct (Z.ltb_spec wc lo) as [Hlt | Hge]; [| reflexivity].
      pose proof (ratio_lt_1 wc lo ltac:(lia)) as Hr.
      unfold truediv. cbv zeta.
      destruct (min_spec (inject_Z wc / inject_Z lo) 1) as [[? ->] | [? ->]];
        [lra |].
      destruct (Qle_bool (inject_Z wc / inject_Z lo) 1) eqn:Eb;
        [reflexivity |].
      assert (Qle_bool (inject_Z wc / inject_Z lo) 1 = true)
        by (apply Qle_bool_iff; lra).
      congruence.
    + assert (lo = 0%Z) as -> by lia. simpl orb. simpl Z.eqb. simpl andb.
      destruct (Z.ltb_spec hi 999) as [Hb | Hu];
        destruct (Z.leb_spec 999 hi); try lia; [| reflexivity].
      destruct ((0 <=? wc) && (wc <=? hi))%Z; [reflexivity |].
      destruct (Z.ltb_spec wc 0); [lia | reflexivity].
  - intros [-> Hu]. unfold length_term, Spec.length_term.
    destruct (Z.leb_spec 999 hi); [reflexivity | lia].
  - intros [H1 H2]. unfold length_term, Spec.length_term.
    destruct ((lo =? 0) && (999 <=? hi))%Z; [reflexivity |].
    destruct (Z.leb_spec lo wc), (Z.leb_spec wc hi); try lia. reflexivity.
  - intros Hlt. unfold length_term, Spec.length_term.
    destruct (Z.eqb_spec lo 0) as [-> | NZ]; [lia |]. simpl andb.
    destruct (Z.leb_spec lo wc); [lia |]. simpl andb.
    destruct (Z.ltb_spec wc lo); [| lia].
    pose proof (ratio_lt_1 wc lo ltac:(lia)) as Hr.
    destruct (min_spec (inject_Z wc / inject_Z lo) 1) as [[? ->] | [? ->]];
      [lra |].
    destruct (Qle_bool (inject_Z wc / inject_Z lo) 1) eqn:Eb;
      [reflexivity |].
    assert (Qle_bool (inject_Z wc / inject_Z lo) 1 = true)
      by (apply Qle_bool_iff; lra).
    congruence.
  - intros NU Hgt. unfold length_term, Spec.length_term.
    assert (((lo =? 0) && (999 <=? hi))%Z = false) as ->.
    { apply andb_false_iff.
      destruct (Z.eqb_spec lo 0), (Z.leb_spec 999 hi); auto.
      exfalso; apply NU; split; assumption. }
    destruct (Z.leb_spec wc hi); [lia |]. rewrite andb_false_r.
    destruct (Z.ltb_spec wc lo); [lia | reflexivity].
Qed.

Lemma rule_based_score_length_term_witness :
  (0 <= 6)%Z /\ (6 <= 10)%Z /\
  _rule_based_score (lit "a b c") [lit "a"; lit "z"] 6 10
  == Spec.presence_score (lit "a b c") [lit "a"; lit "z"]
     + Spec.length_term 3 6 10.
Proof.
  split; [lia | split; [lia |]].
  apply (rule_based_score_length_term
           (lit "a b c") [lit "a"; lit "z"] 6 10); lia.
Defined.

End SubScores.

(** ** scoring_engine.py: the semantic sub-score *)

Section SemanticScore.

Import Utils NLP Engine.

Variable cosine : str -> str -> Q.

(** The similarity is always a value of [0, 1]. *)
Lemma calculate_similarity_range (text1 text2 : str) :
  0 <= calculate_similarity cosine text1 text2 <= 1.
Proof.
  unfold calculate_similarity. cbv zeta.
  destruct (min_spec 1 (cosine text1 text2)) as [[H1 ->] | [H1 ->]].
  - destruct (max_spec 0 (cosine text1 text2)) as [[H2 ->] | [H2 ->]]; lra.
  - destruct (max_spec 0 1) as [[H2 ->] | [H2 ->]]; lra.
Qed.

(** A cosine that is already in [0, 1] is the similarity. *)
Lemma calculate_similarity_id (text1 text2 : str) (s : Q) :
  0 <= s <= 1 -> cosine text1 text2 == s ->
  calculate_similarity cosine text1 text2 == s.
Proof.
  intros Hs E. unfold calculate_similarity. cbv zeta.
  destruct (min_spec 1 (cosine text1 text2)) as [[H1 ->] | [H1 ->]].
  - destruct (max_spec 0 (cosine text1 text2)) as [[H2 ->] | [H2 ->]]; lra.
  - destruct (max_spec 0 1) as [[H2 ->] | [H2 ->]]; lra.
Qed.

Lemma semantic_score_range (transcript description : str) :
  0 <= fst (_semantic_score cosine transcript description) <= 100.
Proof. apply normalize_score_range. Qed.

(** C2. When the oracle's similarity is [s], a value of [0, 1], the semantic
    sub-score is [70 + (s - 0.7) * 100] for [s >= 0.7], which lies in
    [70, 100]; [40 + (s - 0.4) * 100] for [0.4 <= s < 0.7], which lies in
    [40, 70); and [s * 100] for [s < 0.4], which lies in [0, 40).  The
    similarity returned with it is [s]. *)
Theorem semantic_score_piecewise :
  forall (transcript description : str) (s : Q),
    0 <= s <= 1 ->
    cosine transcript description == s ->
    let semantic_score :=
      fst (_semantic_score cosine transcript description) in
    snd (_semantic_score cosine transcript description) == s /\
    ((7 # 10) <= s ->
     semantic_score == 70 + (s - (7 # 10)) * 100 /\
     70 <= semantic_score <= 100) /\
    ((4 # 10) <= s < (7 # 10) ->
     semantic_score == 40 + (s - (4 # 10)) * 100 /\
     40 <= semantic_score < 70) /\
    (s < (4 # 10) ->
     semantic_score == s * 100 /\ 0 <= semantic_score < 40).
Proof.
  intros t d s Hs Hc. cbv zeta.
  pose proof (calculate_similarity_id t d s Hs Hc) as E.
  unfold _semantic_score. cbv zeta. cbn [fst snd].
  set (sim := calculate_similarity cosine t d) in *.
  set (raw := if Qgeb sim (7 # 10) then _ else _).
  assert (normalize_score raw == raw) as ->.
  { apply normalize_score_id. subst raw.
    destruct (Qgeb_spec sim (7 # 10)); [lra |].
    destruct (Qgeb_spec sim (4 # 10)); lra. }
  subst raw.
  split; [exact E |].
  split; [| split]; intros H;
    destruct (Qgeb_spec sim (7 # 10)); destruct (Qgeb_spec sim (4 # 10));
    repeat split; lra.
Qed.

End SemanticScore.

Lemma semantic_score_piecewise_witness :
  0 <= (3 # 4) <= 1 /\
  Sample.cosine (3 # 4) (lit "hello") (lit "greets") == (3 # 4) /\
  fst (Engine._semantic_score (Sample.cosine (3 # 4))
         (lit "hello") (lit "greets")) == 75.
Proof.
  split; [split; discriminate |]. split; [reflexivity |].
  destruct (semantic_score_piecewise (Sample.cosine (3 # 4))
              (lit "hello") (lit "greets") (3 # 4)) as (_ & H & _).
  - split; discriminate.
  - reflexivity.
  - destruct H as [H _]; [discriminate |]. rewrite H. reflexivity.
Defined.

(** ** scoring_engine.py: the criterion scorer and the aggregator *)

Section Aggregation.

Import Utils NLP Engine.

Variable word_tokenize : str -> list str.
Variable sent_tokenize : str -> list str.
Variable cosine : str -> str -> Q.


Lemma score_criterion_weight
    (transcript transcript_lower criterion_name description : str)
    (keywords : list str) (w : Q) (min_words max_words : Z) :
  weight (_score_criterion word_tokenize cosine transcript transcript_lower
            criterion_name description keywords w min_words max_words) = w.
Proof.
  unfold _score_criterion.
  destruct (_semantic_score cosine transcript description). reflexivity.
Qed.




End Aggregation.


(** Outside the data model, where a weight may be negative, the weighted
    average leaves [0, 100]: the non-negative weights above are needed. *)
Example calculate_weighted_average_negative_weight :
  Utils.calculate_weighted_average [100; 0] [2; -(1)] == 200.
Proof. reflexivity. Qed.

(** ** nlp_processor.py: the keyword matcher *)

Section KeywordMatcher.

Import Utils NLP.

Variable word_tokenize : str -> list str.

Lemma match_step_appears (text : str) (acc : list str * list str)
    (keyword : str) :
  match_step (lower text) (word_tokenize (lower text)) acc keyword =
  if Spec.appears word_tokenize text keyword
  then (fst acc ++ [keyword], snd acc)
  else (fst acc, snd acc ++ [keyword]).
Proof.
  unfold match_step, Spec.appears. destruct acc as [f m]. cbn [fst snd].
  destruct (contains (lower keyword) (lower text)); [reflexivity |].
  destruct (mem (lower keyword) (word_tokenize (lower text))); reflexivity.
Qed.

(** The loop appends to [found] the keywords that appear and to [missing]
    the others, each in the order of the input. *)
Lemma match_loop_filter (text : str) (keywords found0 missing0 : list str) :
  fold_left (match_step (lower text) (word_tokenize (lower text)))
    keywords (found0, missing0) =
  (found0 ++ filter (Spec.appears word_tokenize text) keywords,
   missing0
   ++ filter (fun k => negb (Spec.appears word_tokenize text k)) keywords).
Proof.
  revert found0 missing0.
  induction keywords as [| k ks IH]; intros found0 missing0;
    cbn [fold_left filter].
  - now rewrite !app_nil_r.
  - rewrite match_step_appears. cbn [fst snd].
    destruct (Spec.appears word_tokenize text k); cbn [negb];
      rewrite IH, <- app_assoc; reflexivity.
Qed.

Lemma find_keyword_matches_found (text : str) (keywords : list str) :
  found (find_keyword_matches word_tokenize text keywords)
  = filter (Spec.appears word_tokenize text) keywords.
Proof.
  unfold find_keyword_matches. cbv zeta.
  rewrite match_loop_filter. reflexivity.
Qed.

Lemma find_keyword_matches_missing (text : str) (keywords : list str) :
  missing (find_keyword_matches word_tokenize text keywords)
  = filter (fun k => negb (Spec.appears word_tokenize text k)) keywords.
Proof.
  unfold find_keyword_matches. cbv zeta.
  rewrite match_loop_filter. reflexivity.
Qed.

Lemma find_keyword_matches_rate (text : str) (keywords : list str) :
  match_rate (find_keyword_matches word_tokenize text keywords)
  = if is_empty keywords then 0
    else truediv (len (filter (Spec.appears word_tokenize text) keywords))
           (len keywords).
Proof.
  unfold find_keyword_matches. cbv zeta.
  rewrite match_loop_filter. reflexivity.
Qed.

Lemma filter_all_length {A : Type} (p : A -> bool) (xs : list A) :
  length (filter p xs) = length xs <-> Forall (fun x => p x = true) xs.
Proof.
  induction xs as [| x xs IH]; simpl.
  - split; auto.
  - destruct (p x) eqn:E; simpl.
    + split.
      * intros H. constructor; [exact E | apply IH; lia].
      * intros H. inversion H; subst. f_equal. now apply IH.
    + split.
      * intros H. pose proof (filter_length_le p xs). lia.
      * intros H. inversion H; congruence.
Qed.

(** A quotient of integers is 1 exactly when they are equal. *)
Lemma truediv_one (a b : Z) : (0 < b)%Z -> truediv a b == 1 <-> a = b.
Proof.
  intros Hb. unfold truediv.
  assert (~ inject_Z b == 0) as NZ.
  { pose proof (inject_Z_pos b Hb). lra. }
  split.
  - intros H. apply inject_Z_injective.
    rewrite <- (Qmult_div_r (inject_Z a) (inject_Z b) NZ), H. lra.
  - intros ->. now apply Qmult_inv_r.
Qed.

(** C4. [find_keyword_matches] returns as match rate the number of found
    keywords over the number of keywords, and 0 for an empty keyword list;
    for a keyword list that is not empty the rate is 1 exactly when every
    keyword appears in the text, as a substring of the case-folded text or as
    one of its tokens; [found] and [missing] are the keywords that appear and
    the keywords that do not, each in the order of the input. *)
Theorem find_keyword_matches_rate_and_order :
  forall (text : str) (keywords : list str),
    let r := find_keyword_matches word_tokenize text keywords in
    found r = filter (Spec.appears word_tokenize text) keywords /\
    missing r
    = filter (fun k => negb (Spec.appears word_tokenize text k)) keywords /\
    (keywords = [] -> match_rate r == 0) /\
    (keywords <> [] ->
     match_rate r == inject_Z (len (found r)) / inject_Z (len keywords)) /\
    (keywords <> [] ->
     (match_rate r == 1 <->
      Forall (fun k => Spec.appears word_tokenize text k = true) keywords)).
Proof.
  intros text keywords r. subst r.
  rewrite find_keyword_matches_found, find_keyword_matches_missing,
    find_keyword_matches_rate.
  split; [reflexivity |]. split; [reflexivity |].
  split; [intros ->; reflexivity |].
  split; intros NE; destruct keywords as [| k ks]; try congruence;
    cbn [is_empty].
  - reflexivity.
  - rewrite truediv_one by (apply len_pos; discriminate).
    rewrite <- filter_all_length. unfold len. split; [lia | congruence].
Qed.

(** C10. The lists [found] and [missing] split the keyword list: a string is
    in one of them exactly when it is a keyword, none is in both, their
    lengths add up to the length of the keyword list, and together they are a
    rearrangement of it. *)
Theorem find_keyword_matches_partition :
  forall (text : str) (keywords : list str),
    let r := find_keyword_matches word_tokenize text keywords in
    (forall k, In k keywords <-> In k (found r) \/ In k (missing r)) /\
    (forall k, ~ (In k (found r) /\ In k (missing r))) /\
    (length (found r) + length (missing r) = length keywords)%nat /\
    Permutation (found r ++ missing r) keywords.
Proof.
  intros text keywords r. subst r.
  rewrite find_keyword_matches_found, find_keyword_matches_missing.
  split; [| split; [| split]].
  - intros k. split.
    + intros Hk. destruct (Spec.appears word_tokenize text k) eqn:E.
      * left. apply filter_In. auto.
      * right. apply filter_In. rewrite E. auto.
    + intros [H | H]; apply filter_In in H; tauto.
  - intros k [H1 H2]. apply filter_In in H1, H2.
    destruct H1 as [_ E1], H2 as [_ E2]. rewrite E1 in E2. discriminate.
  - induction keywords as [| k ks IH]; simpl; [reflexivity |].
    destruct (Spec.appears word_tokenize text k); simpl; lia.
  - induction keywords as [| k ks IH]; simpl; [constructor |].
    destruct (Spec.appears word_tokenize text k); simpl.
    + now constructor.
    + apply Permutation_sym, Permutation_cons_app, Permutation_sym, IH.
Qed.

End KeywordMatcher.

Lemma find_keyword_matches_rate_and_order_witness :
  let text := lit "Hello my name is John and I love programming" in
  let keywords := [lit "hello"; lit "name"; lit "programming"] in
  keywords <> [] /\
  NLP.match_rate
    (NLP.find_keyword_matches Sample.word_tokenize text keywords) == 1.
Proof.
  cbv zeta. split; [discriminate |].
  apply (find_keyword_matches_rate_and_order Sample.word_tokenize
           (lit "Hello my name is John and I love programming")
           [lit "hello"; lit "name"; lit "programming"]).
  - discriminate.
  - repeat constructor.
Defined.

(** ** nlp_processor.py: the text statistics *)

Section TextQuality.

Import Utils NLP.

Variable word_tokenize : str -> list str.
Variable sent_tokenize : str -> list str.

Lemma truediv_checked_ok (a b : Z) :
  b <> 0%Z -> truediv_checked a b = Ok (truediv a b).
Proof.
  intros NZ. unfold truediv_checked.
  destruct (Z.eqb_spec b 0); [contradiction | reflexivity].
Qed.

Lemma len_nonzero {A : Type} (xs : list A) : xs <> [] -> len xs <> 0%Z.
Proof. intros NE. pose proof (len_pos xs NE). lia. Qed.

(** The average sentence length never fails: its guard looks at the list it
    divides by. *)
Lemma avg_sentence_length_ok (words sentences : list str) :
  exists avg : Q,
    (if is_empty sentences then Ok 0
     else truediv_checked (len words) (len sentences)) = Ok avg.
Proof.
  destruct sentences as [| s ss]; cbn [is_empty].
  - now exists 0.
  - eexists. apply truediv_checked_ok, len_nonzero. discriminate.
Qed.

(** With no token at all the statistics are all zero. *)
Lemma analyze_text_quality_no_tokens (text : str) :
  word_tokenize text = [] -> sent_tokenize text = [] ->
  analyze_text_quality word_tokenize sent_tokenize text
  = Ok {| tq_word_count := 0; sentence_count := 0;
          avg_sentence_length := 0; unique_words := 0;
          vocabulary_richness := 0 |}.
Proof.
  intros Hw Hs. unfold analyze_text_quality. rewrite Hw, Hs. reflexivity.
Qed.

(** With an alphanumeric token the vocabulary richness is the number of
    distinct words over the number of words. *)
Lemma analyze_text_quality_richness (text : str) :
  filter isalnum (word_tokenize text) <> [] ->
  exists q : text_quality,
    analyze_text_quality word_tokenize sent_tokenize text = Ok q /\
    vocabulary_richness q
    = truediv (unique_words q) (tq_word_count q).
Proof.
  intros NE. unfold analyze_text_quality. cbv zeta.
  destruct (avg_sentence_length_ok (word_tokenize text) (sent_tokenize text))
    as [avg ->].
  cbn [bind].
  destruct (word_tokenize text) as [| w ws] eqn:Ew; [now elim NE |].
  cbn [is_empty]. rewrite truediv_checked_ok by now apply len_nonzero.
  cbn [bind]. eexists. split; reflexivity.
Qed.

(** C8, the failing case. A text whose tokens are all punctuation has tokens
    but no alphanumeric one: the guard [if words] lets the division through
    and [analyze_text_quality] raises [ZeroDivisionError] instead of
    reporting a vocabulary richness of 0. *)
Theorem analyze_text_quality_no_alnum_raises :
  forall text : str,
    word_tokenize text <> [] ->
    filter isalnum (word_tokenize text) = [] ->
    analyze_text_quality word_tokenize sent_tokenize text
    = Raise ZeroDivisionError.
Proof.
  intros text NE Hno. unfold analyze_text_quality. cbv zeta.
  destruct (avg_sentence_length_ok (word_tokenize text) (sent_tokenize text))
    as [avg ->].
  cbn [bind]. rewrite Hno.
  destruct (word_tokenize text) as [| w ws]; [now elim NE |].
  reflexivity.
Qed.

End TextQuality.

Lemma analyze_text_quality_no_alnum_raises_witness :
  Sample.word_tokenize (lit "!") <> [] /\
  filter isalnum (Sample.word_tokenize (lit "!")) = [] /\
  NLP.analyze_text_quality Sample.word_tokenize Sample.sent_tokenize (lit "!")
  = Raise ZeroDivisionError.
Proof.
  split; [discriminate |]. split; [reflexivity |].
  apply (analyze_text_quality_no_alnum_raises
           Sample.word_tokenize Sample.sent_tokenize (lit "!")).
  - discriminate.
  - reflexivity.
Defined.

(** The same failure through the aggregator: ten exclamation marks pass the
    validation, and scoring them raises. *)
Example score_transcript_punctuation_raises :
  Utils.valid (Utils.validate_transcript (lit "! ! ! ! ! ! ! ! ! !")) = true /\
  Engine.score_transcript Sample.word_tokenize Sample.sent_tokenize
    (Sample.cosine (1 # 2)) [Sample.row "a, b" 2 0 999]
    (lit "! ! ! ! ! ! ! ! ! !")
  = Raise ZeroDivisionError.
Proof. split; reflexivity. Qed.

(** ** nlp_processor.py: the normalizer *)

Section Normalizer.

Import NLP.

Lemma space_isspace : isspace " "%char = true.
Proof. reflexivity. Qed.

(** The first substitution: what it leaves is collapsed, and after a run has
    been replaced the text does not go on with whitespace. *)
Lemma sub_whitespace_runs_collapsed (text : str) (in_run : bool) :
  Spec.runs_collapsed (sub_whitespace_runs in_run text) = true /\
  (in_run = true ->
   match sub_whitespace_runs in_run text with
   | [] => True
   | b :: _ => isspace b = false
   end).
Proof.
  revert in_run. induction text as [| c r IH]; intros in_run; simpl.
  - auto.
  - destruct (isspace c) eqn:Ec.
    + destruct in_run.
      * apply IH.
      * split; [| discriminate].
        destruct (IH true) as [H1 H2]. specialize (H2 eq_refl).
        cbn [Spec.runs_collapsed]. rewrite space_isspace, H1.
        destruct (sub_whitespace_runs true r) as [| b t]; [reflexivity |].
        rewrite H2. reflexivity.
    + destruct (IH false) as [H1 _]. split; [| intros _; exact Ec].
      cbn [Spec.runs_collapsed]. rewrite Ec, H1. reflexivity.
Qed.


Lemma sub_whitespace_runs_nonspace (text : str) (in_run : bool) :
  filter Spec.nonspace (sub_whitespace_runs in_run text)
  = filter Spec.nonspace text.
Proof.
  revert in_run. induction text as [| c r IH]; intros in_run; simpl.
  - reflexivity.
  - unfold Spec.nonspace at 2. destruct (isspace c) eqn:Ec; cbn [negb].
    + destruct in_run; [apply IH |].
      cbn [filter]. unfold Spec.nonspace at 1. rewrite space_isspace. apply IH.
    + cbn [filter]. unfold Spec.nonspace at 1. rewrite Ec. cbn [negb].
      f_equal. apply IH.
Qed.

Lemma lstrip_Forall (P : ascii -> Prop) (s : str) :
  Forall P s -> Forall P (lstrip s).
Proof.
  induction 1 as [| c r Hc Hr IH]; simpl; [constructor |].
  destruct (isspace c); [exact IH | now constructor].
Qed.

Lemma strip_Forall (P : ascii -> Prop) (s : str) :
  Forall P s -> Forall P (strip s).
Proof.
  intros H. unfold strip, rstrip.
  apply Forall_rev, lstrip_Forall, Forall_rev, lstrip_Forall, H.
Qed.



Lemma lstrip_head (s : str) (c : ascii) (r : str) :
  lstrip s = c :: r -> isspace c = false.
Proof.
  induction s as [| a t IH]; simpl; [discriminate |].
  destruct (isspace a) eqn:Ea; [exact IH |].
  intros [= <- _]. exact Ea.
Qed.

Lemma lstrip_snoc (s : str) (c : ascii) :
  isspace c = false -> lstrip (s ++ [c]) = lstrip s ++ [c].
Proof.
  intros Ec. induction s as [| a t IH]; simpl.
  - now rewrite Ec.
  - destruct (isspace a); [exact IH | reflexivity].
Qed.

(** A stripped text neither starts nor ends with whitespace. *)
Lemma strip_head (s : str) (c : ascii) (r : str) :
  strip s = c :: r -> isspace c = false.
Proof.
  unfold strip, rstrip. intros E.
  destruct (lstrip s) as [| a t] eqn:El; [discriminate E |].
  pose proof (lstrip_head s a t El) as Ea.
  simpl rev in E. rewrite lstrip_snoc in E by exact Ea.
  rewrite rev_app_distr in E. simpl in E. now injection E as <- _.
Qed.

Lemma strip_last (s : str) (c : ascii) (i : str) :
  strip s = i ++ [c] -> isspace c = false.
Proof.
  unfold strip, rstrip. intros E.
  apply (f_equal (@rev ascii)) in E.
  rewrite rev_involutive, rev_app_distr in E. simpl in E.
  exact (lstrip_head _ _ _ E).
Qed.






Lemma lstrip_fixed (s : str) :
  (forall c r, s = c :: r -> isspace c = false) -> lstrip s = s.
Proof.
  destruct s as [| c r]; [reflexivity |]. intros H. simpl.
  now rewrite (H c r eq_refl).
Qed.

Lemma runs_collapsed_app_l (a b : str) :
  Spec.runs_collapsed (a ++ b) = true -> Spec.runs_collapsed a = true.
Proof.
  induction a as [| x a IH]; [reflexivity |].
  cbn [app Spec.runs_collapsed]. intros H.
  apply andb_true_iff in H. destruct H as [H1 H2].
  rewrite (IH H2), andb_true_r.
  destruct (isspace x); [| reflexivity].
  apply andb_true_iff in H1. destruct H1 as [-> H1].
  destruct a; [reflexivity | exact H1].
Qed.

Lemma runs_collapsed_app_r (a b : str) :
  Spec.runs_collapsed (a ++ b) = true -> Spec.runs_collapsed b = true.
Proof.
  induction a as [| x a IH]; [auto |].
  cbn [app Spec.runs_collapsed]. intros H.
  apply andb_true_iff in H. now apply IH.
Qed.

Lemma lstrip_suffix (s : str) : exists pre, s = pre ++ lstrip s.
Proof.
  induction s as [| c r [pre IH]]; [now exists [] |].
  simpl. destruct (isspace c).
  - exists (c :: pre). simpl. now rewrite <- IH.
  - now exists [].
Qed.

Lemma rstrip_prefix (s : str) : exists suf, s = rstrip s ++ suf.
Proof.
  unfold rstrip. destruct (lstrip_suffix (rev s)) as [pre E].
  exists (rev pre). rewrite <- rev_app_distr, <- E.
  now rewrite rev_involutive.
Qed.

Lemma strip_runs_collapsed (s : str) :
  Spec.runs_collapsed s = true -> Spec.runs_collapsed (strip s) = true.
Proof.
  intros H. unfold strip.
  destruct (lstrip_suffix s) as [pre E]. rewrite E in H.
  apply runs_collapsed_app_r in H.
  destruct (rstrip_prefix (lstrip s)) as [suf E'].
  rewrite E' in H. now apply runs_collapsed_app_l in H.
Qed.

Lemma sub_whitespace_runs_Forall (P : ascii -> Prop) (s : str)
    (in_run : bool) :
  P " "%char -> Forall P s -> Forall P (sub_whitespace_runs in_run s).
Proof.
  intros Hsp H. revert in_run.
  induction H as [| c r Hc Hr IH]; intros in_run; simpl; [constructor |].
  destruct (isspace c); [destruct in_run |]; auto.
Qed.

Lemma filter_fixed {A : Type} (p : A -> bool) (xs : list A) :
  Forall (fun x => p x = true) xs -> filter p xs = xs.
Proof.
  induction 1 as [| x xs Hx _ IH]; simpl; [reflexivity |].
  now rewrite Hx, IH.
Qed.















(** A second pass of the normalizer removes the space that the first has
    left: the two substitutions are made one after the other. *)
Example preprocess_text_removed_between_spaces :
  preprocess_text (lit "a @ b") = lit "a  b" /\
  preprocess_text (lit "a  b") = lit "a b".
Proof. split; reflexivity. Qed.


End Normalizer.

(** ** utils.py and app.py: validation before scoring *)

Section Validation.

Import Utils NLP Engine App.

Variable word_tokenize : str -> list str.
Variable sent_tokenize : str -> list str.
Variable cosine : str -> str -> Q.

(** The verdict of [validate_transcript]. *)
Lemma validate_transcript_valid (transcript : str) :
  valid (validate_transcript transcript) =
  negb (is_empty (strip transcript))
  && (10 <=? len (split transcript))%Z
  && (len (split transcript) <=? 5000)%Z.
Proof.
  unfold validate_transcript.
  destruct transcript as [| c r]; [reflexivity |]. cbn [is_empty orb].
  destruct (is_empty (strip (c :: r))); [reflexivity |]. cbv zeta.
  rewrite Z.gtb_ltb.
  destruct (Z.ltb_spec (len (split (c :: r))) 10);
    destruct (Z.leb_spec 10 (len (split (c :: r)))); try lia;
    [reflexivity |].
  destruct (Z.ltb_spec 5000 (len (split (c :: r))));
    destruct (Z.leb_spec (len (split (c :: r))) 5000); try lia; reflexivity.
Qed.

(** The message of [validate_transcript] is never the empty string. *)
Lemma validate_transcript_message (transcript : str) :
  message (validate_transcript transcript) <> [].
Proof.
  unfold validate_transcript.
  destruct (is_empty transcript || is_empty (strip transcript));
    [discriminate |]. cbv zeta.
  destruct (len (split transcript) <? 10)%Z; [discriminate |].
  destruct (len (split transcript) >? 5000)%Z; discriminate.
Qed.

(** The score endpoint finds the transcript of the body
    [{"transcript": transcript}]. *)
Lemma score_endpoint_transcript_request
    (create : result (list rubric_row)) (st : engine_state)
    (transcript : str) :
  score_endpoint word_tokenize sent_tokenize cosine create st
    (transcript_request transcript)
  = if negb (valid (validate_transcript transcript)) then
      (st, [], Failure 400 (message (validate_transcript transcript)))
    else
      match init_scoring_engine create st with
      | (st', init_events, Raise e) => (st', init_events, InternalError e)
      | (st', init_events, Ok engine_rubric) =>
          match score_transcript word_tokenize sent_tokenize cosine
                  engine_rubric transcript with
          | Ok result =>
              (st', init_events ++ [ScoreTranscript transcript],
               Success result (get_score_category (overall_score result)))
          | Raise e =>
              (st', init_events ++ [ScoreTranscript transcript],
               InternalError e)
          end
      end.
Proof.
  unfold score_endpoint, transcript_request.
  cbn [Json.truthy negb Json.contains_key Json.getitem Json.lookup fold_left
       fst snd].
  destruct (str_eq_dec (lit "transcript") (lit "transcript")) as [_ | N];
    [reflexivity | now destruct N].
Qed.

(** C6. [validate_transcript] marks a transcript invalid exactly when it is
    empty after trimming, or has fewer than 10 words, or has more than 5000
    words, and valid otherwise; its message is never empty; and on an invalid
    transcript the score endpoint answers with that message and status 400,
    makes no call to the scoring engine and leaves it as it was, while on a
    valid one it calls the engine to score the transcript, unless the engine
    has to be created first and its creation raises, which is answered with
    status 500. *)
Theorem validate_transcript_exactly :
  forall (create : result (list rubric_row)) (st : engine_state)
         (transcript : str),
    let v := validate_transcript transcript in
    let word_count := len (split transcript) in
    (valid v = false <->
     strip transcript = [] \/ (word_count < 10)%Z \/ (word_count > 5000)%Z) /\
    (valid v = true <->
     strip transcript <> [] /\ (10 <= word_count <= 5000)%Z) /\
    message v <> [] /\
    (valid v = false ->
     score_endpoint word_tokenize sent_tokenize cosine create st
       (transcript_request transcript)
     = (st, [], Failure 400 (message v))) /\
    (valid v = true ->
     match Notions.loaded create st with
     | Some _ =>
         exists st' events response,
           score_endpoint word_tokenize sent_tokenize cosine create st
             (transcript_request transcript)
           = (st', events ++ [ScoreTranscript transcript], response)
     | None =>
         exists e,
           create = Raise e /\
           score_endpoint word_tokenize sent_tokenize cosine create st
             (transcript_request transcript)
           = (None, [InitFailed e], InternalError e)
     end).
Proof.
  intros create st transcript v word_count. subst v word_count.
  pose proof (validate_transcript_valid transcript) as V.
  set (wc := len (split transcript)) in *.
  assert (is_empty (strip transcript) = true <-> strip transcript = []) as HE.
  { destruct (strip transcript); cbn; split; congruence. }
  split; [| split; [| split; [| split]]].
  - rewrite V, !andb_false_iff, negb_false_iff, HE, !Z.leb_gt.
    intuition lia.
  - rewrite V, !andb_true_iff, negb_true_iff, !Z.leb_le.
    assert (is_empty (strip transcript) = false <-> strip transcript <> [])
      as HN.
    { rewrite <- HE. destruct (is_empty (strip transcript));
        intuition congruence. }
    rewrite HN. intuition lia.
  - apply validate_transcript_message.
  - intros Hv. rewrite score_endpoint_transcript_request, Hv. reflexivity.
  - intros Hv. rewrite score_endpoint_transcript_request, Hv. cbn [negb].
    destruct st as [r |]; [| destruct create as [r | e]];
      cbn [Notions.loaded init_scoring_engine].
    + destruct (score_transcript _ _ _ _ _); repeat eexists.
    + destruct (score_transcript _ _ _ _ _); repeat eexists.
    + exists e. split; reflexivity.
Qed.

End Validation.

Lemma validate_transcript_exactly_witness :
  Utils.valid (Utils.validate_transcript (lit "Too short")) = false /\
  App.score_endpoint Sample.word_tokenize Sample.sent_tokenize
    (Sample.cosine (1 # 2)) (Ok [Sample.row "a, b" 2 0 999]) None
    (App.transcript_request (lit "Too short"))
  = (None, [],
     App.Failure 400
       (lit "Transcript too short (2 words). Minimum 10 words required.")).
Proof.
  split; [reflexivity |].
  apply (validate_transcript_exactly Sample.word_tokenize
           Sample.sent_tokenize (Sample.cosine (1 # 2))
           (Ok [Sample.row "a, b" 2 0 999]) None (lit "Too short")).
  reflexivity.
Defined.

(** * Further properties of the backend *)

(** ** utils.py *)

Section UtilsMore.

Import Utils.

Lemma normalize_score_in_id (score min_val max_val : Q) :
  min_val <= score <= max_val ->
  normalize_score_in score min_val max_val == score.
Proof.
  intros [H1 H2]. unfold normalize_score_in.
  destruct (min_spec max_val score) as [[Ha ->] | [Ha ->]].
  - destruct (max_spec min_val score) as [[Hb ->] | [Hb ->]]; lra.
  - destruct (max_spec min_val max_val) as [[Hb ->] | [Hb ->]]; lra.
Qed.

Lemma normalize_score_in_range (score min_val max_val : Q) :
  min_val <= max_val ->
  min_val <= normalize_score_in score min_val max_val <= max_val.
Proof.
  intros H. unfold normalize_score_in.
  destruct (min_spec max_val score) as [[Ha ->] | [Ha ->]].
  - destruct (max_spec min_val score) as [[Hb ->] | [Hb ->]]; lra.
  - destruct (max_spec min_val max_val) as [[Hb ->] | [Hb ->]]; lra.
Qed.

(** X1. For bounds [min_val <= max_val], [normalize_score] clamps: the result
    lies within the bounds, is the score itself when the score does, the
    lower bound for a score below it and the upper bound for a score above
    it; normalizing a second time changes nothing. *)
Theorem normalize_score_clamps :
  forall score min_val max_val : Q,
    min_val <= max_val ->
    let r := normalize_score_in score min_val max_val in
    min_val <= r <= max_val /\
    (min_val <= score <= max_val -> r == score) /\
    (score < min_val -> r == min_val) /\
    (max_val < score -> r == max_val) /\
    normalize_score_in r min_val max_val == r.
Proof.
  intros score lo hi H r.
  pose proof (normalize_score_in_range score lo hi H) as R. fold r in R.
  split; [exact R |].
  split; [apply normalize_score_in_id |].
  split; [| split; [| now apply normalize_score_in_id]].
  - intros Hs. subst r. unfold normalize_score_in.
    destruct (min_spec hi score) as [[Ha ->] | [Ha ->]].
    + destruct (max_spec lo score) as [[Hb ->] | [Hb ->]]; lra.
    + destruct (max_spec lo hi) as [[Hb ->] | [Hb ->]]; lra.
  - intros Hs. subst r. unfold normalize_score_in.
    destruct (min_spec hi score) as [[Ha ->] | [Ha ->]].
    + destruct (max_spec lo score) as [[Hb ->] | [Hb ->]]; lra.
    + destruct (max_spec lo hi) as [[Hb ->] | [Hb ->]]; lra.
Qed.

Lemma normalize_score_clamps_witness :
  0 <= 100 /\ normalize_score_in 150 0 100 == 100.
Proof.
  split; [discriminate |].
  destruct (normalize_score_clamps 150 0 100) as (_ & _ & _ & H & _);
    [discriminate |].
  apply H. reflexivity.
Defined.

Lemma category_rank_values :
  Notions.category_rank (lit "Excellent") = 5%Z /\
  Notions.category_rank (lit "Very Good") = 4%Z /\
  Notions.category_rank (lit "Good") = 3%Z /\
  Notions.category_rank (lit "Satisfactory") = 2%Z /\
  Notions.category_rank (lit "Fair") = 1%Z /\
  Notions.category_rank (lit "Needs Improvement") = 0%Z.
Proof. repeat split; vm_compute; reflexivity. Qed.

(** The rank of the category of a score, read off the thresholds. *)
Lemma get_score_category_rank (score : Q) :
  Notions.category_rank (get_score_category score) =
  if Qgeb score 90 then 5%Z
  else if Qgeb score 80 then 4%Z
  else if Qgeb score 70 then 3%Z
  else if Qgeb score 60 then 2%Z
  else if Qgeb score 50 then 1%Z
  else 0%Z.
Proof.
  destruct category_rank_values as (E5 & E4 & E3 & E2 & E1 & E0).
  unfold get_score_category.
  destruct (Qgeb score 90); [exact E5 |].
  destruct (Qgeb score 80); [exact E4 |].
  destruct (Qgeb score 70); [exact E3 |].
  destruct (Qgeb score 60); [exact E2 |].
  destruct (Qgeb score 50); [exact E1 | exact E0].
Qed.

(** X2. [get_score_category] is monotone: a higher score never gets a lower
    category in the order Needs Improvement, Fair, Satisfactory, Good, Very
    Good, Excellent; the top category is given exactly from 90 on and the
    bottom one exactly below 50. *)
Theorem get_score_category_monotone :
  forall s1 s2 : Q,
    s1 <= s2 ->
    (Notions.category_rank (get_score_category s1)
     <= Notions.category_rank (get_score_category s2))%Z /\
    (get_score_category s1 = lit "Excellent" <-> 90 <= s1) /\
    (get_score_category s1 = lit "Needs Improvement" <-> s1 < 50).
Proof.
  intros s1 s2 H. split; [| split].
  - rewrite !get_score_category_rank.
    destruct (Qgeb_spec s1 90), (Qgeb_spec s2 90),
      (Qgeb_spec s1 80), (Qgeb_spec s2 80),
      (Qgeb_spec s1 70), (Qgeb_spec s2 70),
      (Qgeb_spec s1 60), (Qgeb_spec s2 60),
      (Qgeb_spec s1 50), (Qgeb_spec s2 50); try lia; lra.
  - unfold get_score_category.
    destruct (Qgeb_spec s1 90); [tauto |].
    destruct (Qgeb s1 80), (Qgeb s1 70), (Qgeb s1 60), (Qgeb s1 50);
      split; intros E; try contradiction; discriminate E.
  - unfold get_score_category.
    destruct (Qgeb_spec s1 90), (Qgeb_spec s1 80), (Qgeb_spec s1 70),
      (Qgeb_spec s1 60), (Qgeb_spec s1 50);
      split; intros E; try discriminate E; try lra; reflexivity.
Qed.

Lemma get_score_category_monotone_witness :
  45 <= 95 /\
  (Notions.category_rank (get_score_category 45)
   <= Notions.category_rank (get_score_category 95))%Z.
Proof.
  split; [discriminate |].
  apply (get_score_category_monotone 45 95). discriminate.
Defined.

End UtilsMore.

(** ** utils.py: the keyword cells of the rubric *)

Section ParseKeywords.

Import Utils.

Lemma strip_idempotent (s : str) : strip (strip s) = strip s.
Proof.
  assert (lstrip (strip s) = strip s) as E1.
  { apply lstrip_fixed. intros c r. apply strip_head. }
  assert (lstrip (rev (strip s)) = rev (strip s)) as E2.
  { apply lstrip_fixed. intros c r E.
    apply (strip_last s c (rev r)).
    rewrite <- (rev_involutive (strip s)), E. reflexivity. }
  unfold strip at 1. rewrite E1. unfold rstrip. rewrite E2.
  apply rev_involutive.
Qed.

(** Reading a piece without separator only extends the current field. *)
Lemma split_on_from_word (sep : ascii) (w cur s : str) :
  Forall (fun c => c <> sep) w ->
  split_on_from sep cur (w ++ s) = split_on_from sep (rev w ++ cur) s.
Proof.
  intros H. revert cur. induction H as [| c w Hc Hw IH]; intros cur; simpl.
  - reflexivity.
  - destruct (Ascii.eqb_spec c sep); [contradiction |].
    rewrite IH, <- app_assoc. reflexivity.
Qed.

Lemma split_on_join (sep : ascii) (pieces : list str) :
  pieces <> [] ->
  Forall (Forall (fun c => c <> sep)) pieces ->
  split_on sep (join [sep] pieces) = pieces.
Proof.
  intros NE H. unfold split_on. revert NE.
  induction H as [| p ps Hp Hps IH]; intros NE; [now elim NE |].
  destruct ps as [| q qs].
  - simpl join. rewrite <- (app_nil_r p), split_on_from_word by exact Hp.
    simpl. now rewrite !app_nil_r, rev_involutive.
  - change (join [sep] (p :: q :: qs))
      with (p ++ [sep] ++ join [sep] (q :: qs)).
    rewrite split_on_from_word by exact Hp. cbn [app].
    cbn [split_on_from]. rewrite Ascii.eqb_refl, app_nil_r, rev_involutive.
    f_equal. apply IH. discriminate.
Qed.

Lemma split_on_from_no_sep (sep : ascii) (s cur : str) :
  Forall (fun c => c <> sep) cur ->
  Forall (Forall (fun c => c <> sep)) (split_on_from sep cur s).
Proof.
  revert cur. induction s as [| c s IH]; intros cur Hcur; simpl.
  - constructor; [| constructor]. now apply Forall_rev.
  - destruct (Ascii.eqb_spec c sep).
    + constructor; [now apply Forall_rev | apply IH; constructor].
    + apply IH. now constructor.
Qed.

(** On a cell that is not missing, [parse_keywords] strips the pieces
    between the commas and drops the empty ones, also for the empty cell. *)
Lemma parse_keywords_some (ks : str) :
  parse_keywords (Some ks)
  = filter Notions.nonempty (map strip (split_on ","%char ks)).
Proof. destruct ks; reflexivity. Qed.

(** X3. Every keyword [parse_keywords] returns is well formed: it is not
    empty, it neither starts nor ends with whitespace, and it contains no
    comma.  A missing cell and an empty cell give no keyword. *)
Theorem parse_keywords_well_formed :
  forall keyword_string : option str,
    Forall Notions.is_keyword (parse_keywords keyword_string) /\
    parse_keywords None = [] /\
    parse_keywords (Some []) = [].
Proof.
  intros ks. split; [| split; reflexivity].
  destruct ks as [ks |]; [| constructor].
  rewrite parse_keywords_some. apply Forall_forall. intros k Hk.
  apply filter_In in Hk. destruct Hk as [Hin Hne].
  apply in_map_iff in Hin. destruct Hin as (piece & <- & Hpiece).
  split; [| split].
  - destruct (strip piece); [discriminate Hne | discriminate].
  - apply strip_idempotent.
  - apply strip_Forall.
    pose proof (split_on_from_no_sep ","%char ks [] (Forall_nil _)) as H.
    rewrite Forall_forall in H. now apply H.
Qed.

(** X4. Round trip: a list of pieces without commas, joined with commas, is
    parsed back into the pieces, stripped, without the blank ones; so
    well-formed keywords joined with commas are parsed back unchanged. *)
Theorem parse_keywords_join :
  forall pieces : list str,
    Forall (Forall (fun c => c <> ","%char)) pieces ->
    parse_keywords (Some (join (lit ",") pieces))
    = filter Notions.nonempty (map strip pieces) /\
    (Forall Notions.is_keyword pieces ->
     parse_keywords (Some (join (lit ",") pieces)) = pieces).
Proof.
  intros pieces H.
  assert (parse_keywords (Some (join (lit ",") pieces))
          = filter Notions.nonempty (map strip pieces)) as E.
  { rewrite parse_keywords_some. destruct pieces as [| p ps].
    - reflexivity.
    - change (lit ",") with [","%char].
      rewrite split_on_join; [reflexivity | discriminate | exact H]. }
  split; [exact E |].
  intros K. rewrite E. clear E H.
  induction K as [| k ks (Hne & Hs & _) _ IH]; [reflexivity |].
  simpl. rewrite Hs, IH. destruct k; [congruence | reflexivity].
Qed.

Lemma parse_keywords_join_witness :
  Forall (Forall (fun c => c <> ","%char)) [lit "hello"; lit " world "] /\
  parse_keywords (Some (join (lit ",") [lit "hello"; lit " world "]))
  = [lit "hello"; lit "world"].
Proof.
  assert (Forall (Forall (fun c => c <> ","%char))
            [lit "hello"; lit " world "]) as H.
  { repeat constructor; discriminate. }
  split; [exact H |].
  destruct (parse_keywords_join [lit "hello"; lit " world "] H) as [E _].
  rewrite E. reflexivity.
Defined.

End ParseKeywords.

(** ** scoring_engine.py: more on the sub-scores *)

Section SubScoresMore.

Import Utils NLP Engine.

(** The rule-based sub-score is the presence term plus the length term, for
    any upper bound. *)
Lemma rule_based_score_sum (transcript_lower : str) (keywords : list str)
    (min_words max_words : Z) :
  (0 <= min_words)%Z ->
  _rule_based_score transcript_lower keywords min_words max_words
  == Spec.presence_score transcript_lower keywords
     + Spec.length_term (len (split transcript_lower)) min_words max_words.
Proof.
  intros Hlo.
  set (wc := len (split transcript_lower)).
  pose proof (len_nonneg (split transcript_lower)) as Hwc. fold wc in Hwc.
  pose proof (presence_score_bounds transcript_lower keywords) as HP.
  pose proof (length_term_bounds wc min_words max_words Hwc) as HL.
  assert ((if negb (is_empty keywords)
           then 0 + truediv (present_keywords transcript_lower keywords)
                      (len keywords) * 70
           else 0 + 35) == Spec.presence_score transcript_lower keywords)
    as HK.
  { unfold Spec.presence_score, truediv.
    destruct keywords; cbn [negb is_empty]; [lra |].
    set (r := _ / _). lra. }
  unfold _rule_based_score. cbv zeta. fold wc.
  set (K := if negb (is_empty keywords) then _ else _) in *.
  apply normalize_score_eq; [| lra].
  rewrite <- HK. clear HK HP HL.
  unfold Spec.length_term. rewrite !Z.gtb_ltb.
  destruct (Z.ltb_spec 0 min_words) as [Hpos | Hzero].
  - simpl orb. destruct (Z.eqb_spec min_words 0) as [E | _]; [lia |].
    simpl andb.
    destruct ((min_words <=? wc) && (wc <=? max_words))%Z; [reflexivity |].
    destruct (Z.ltb_spec wc min_words) as [Hlt | Hge]; [| reflexivity].
    pose proof (ratio_lt_1 wc min_words ltac:(lia)) as Hr.
    unfold truediv. cbv zeta.
    destruct (min_spec (inject_Z wc / inject_Z min_words) 1)
      as [[? ->] | [? ->]]; [lra |].
    destruct (Qle_bool (inject_Z wc / inject_Z min_words) 1) eqn:Eb;
      [reflexivity |].
    assert (Qle_bool (inject_Z wc / inject_Z min_words) 1 = true)
      by (apply Qle_bool_iff; lra).
    congruence.
  - assert (min_words = 0%Z) as -> by lia.
    simpl orb. simpl Z.eqb. simpl andb.
    destruct (Z.ltb_spec max_words 999) as [Hb | Hu];
      destruct (Z.leb_spec 999 max_words); try lia; [| reflexivity].
    destruct ((0 <=? wc) && (wc <=? max_words))%Z; [reflexivity |].
    destruct (Z.ltb_spec wc 0); [lia | reflexivity].
Qed.

(** The length term against the word-count status, on the same count. *)
Lemma length_term_status (word_count min_words max_words : Z) :
  (0 <= word_count)%Z -> (0 <= min_words)%Z -> (min_words <= max_words)%Z ->
  match get_word_count_status word_count min_words max_words with
  | no_limit | within_range =>
      Spec.length_term word_count min_words max_words == 30
  | too_long => Spec.length_term word_count min_words max_words == 20
  | too_short =>
      0 <= Spec.length_term word_count min_words max_words < 30
  end.
Proof.
  intros Hwc Hlo Hhi. unfold get_word_count_status, Spec.length_term.
  rewrite Z.geb_leb, Z.gtb_ltb.
  destruct ((min_words =? 0) && (999 <=? max_words))%Z eqn:Es;
    [reflexivity |].
  destruct (Z.ltb_spec word_count min_words) as [Hlt | Hge].
  - destruct (Z.leb_spec min_words word_count); [lia |]. simpl andb.
    destruct (Z.eqb_spec min_words 0); [lia |]. cbv zeta.
    pose proof (ratio_lt_1 word_count min_words ltac:(lia)) as Hr.
    pose proof (ratio_bounds word_count min_words ltac:(lia) ltac:(lia)).
    destruct (Qle_bool (inject_Z word_count / inject_Z min_words) 1) eqn:Eb.
    + lra.
    + assert (Qle_bool (inject_Z word_count / inject_Z min_words) 1 = true)
        by (apply Qle_bool_iff; lra).
      congruence.
  - destruct (Z.leb_spec min_words word_count); [| lia]. simpl andb.
    destruct (Z.ltb_spec max_words word_count);
      destruct (Z.leb_spec word_count max_words); try lia; reflexivity.
Qed.

(** X5. The word-count status and the rule-based sub-score agree on the
    same word count, for bounds [0 <= min_words <= max_words]: the length
    term is the full 30 exactly when the status is [no_limit] or
    [within_range], it is 20 when the status is [too_long], and it is less
    than 30 when the status is [too_short]. *)
Theorem rule_based_score_word_count_status :
  forall (transcript_lower : str) (keywords : list str)
         (min_words max_words : Z),
    (0 <= min_words)%Z -> (min_words <= max_words)%Z ->
    let status :=
      get_word_count_status (len (split transcript_lower))
        min_words max_words in
    let rule :=
      _rule_based_score transcript_lower keywords min_words max_words in
    let presence := Spec.presence_score transcript_lower keywords in
    (status = no_limit \/ status = within_range <-> rule == presence + 30) /\
    (status = too_long -> rule == presence + 20) /\
    (status = too_short -> presence <= rule < presence + 30).
Proof.
  intros tl kws lo hi Hlo Hhi status rule presence.
  pose proof (rule_based_score_sum tl kws lo hi Hlo) as E.
  fold rule presence in E.
  pose proof (length_term_status (len (split tl)) lo hi
                (len_nonneg _) Hlo Hhi) as S.
  fold status in S.
  split; [| split].
  - split.
    + intros [Hs | Hs]; rewrite Hs in S; lra.
    + intros H. destruct status; auto; lra.
  - intros Hs. rewrite Hs in S. lra.
  - intros Hs. rewrite Hs in S. lra.
Qed.

Lemma rule_based_score_word_count_status_witness :
  (0 <= 1)%Z /\ (1 <= 2)%Z /\
  _rule_based_score (lit "a b c") [lit "a"; lit "z"] 1 2
  == Spec.presence_score (lit "a b c") [lit "a"; lit "z"] + 20.
Proof.
  split; [lia | split; [lia |]].
  apply (rule_based_score_word_count_status
           (lit "a b c") [lit "a"; lit "z"] 1 2); [lia | lia | reflexivity].
Defined.

(** [s.count(sub)] is positive exactly when [sub in s]. *)
Lemma count_from_positive (sub : str) (s : str) (skip : nat) :
  sub <> [] ->
  (0 < count_from sub skip s)%nat <-> contains sub (skipn skip s) = true.
Proof.
  intros NE. revert skip. induction s as [| c r IH]; intros skip.
  - destruct sub as [| a p]; [congruence |].
    rewrite skipn_nil. simpl. split; [lia | discriminate].
  - destruct skip as [| k].
    + cbn [count_from skipn contains].
      destruct (startswith sub (c :: r)).
      * split; [reflexivity | lia].
      * rewrite (IH 0%nat). reflexivity.
    + cbn [count_from skipn]. apply IH.
Qed.

Lemma contains_nil (s : str) : contains [] s = true.
Proof. destruct s; reflexivity. Qed.

Lemma count_positive (s sub : str) :
  (0 < count s sub)%nat <-> contains sub s = true.
Proof.
  destruct sub as [| a p].
  - rewrite contains_nil. simpl. split; [reflexivity | lia].
  - unfold count. now rewrite count_from_positive.
Qed.

Lemma fold_left_Zadd (xs : list Z) (acc : Z) :
  fold_left Z.add xs acc = (acc + fold_left Z.add xs 0)%Z.
Proof.
  revert acc. induction xs as [| x xs IH]; intros acc; simpl; [lia |].
  rewrite (IH (acc + x)%Z), (IH x). lia.
Qed.

Lemma total_occurrences_cons (tl k : str) (ks : list str) :
  Notions.total_occurrences tl (k :: ks)
  = (Z.of_nat (count tl (lower k)) + Notions.total_occurrences tl ks)%Z.
Proof.
  unfold Notions.total_occurrences. simpl. now rewrite fold_left_Zadd.
Qed.

Lemma present_keywords_cons (tl k : str) (ks : list str) :
  present_keywords tl (k :: ks)
  = ((if contains (lower k) tl then 1 else 0) + present_keywords tl ks)%Z.
Proof.
  unfold present_keywords, len. simpl.
  destruct (contains (lower k) tl); simpl length; lia.
Qed.

(** Every present keyword occurs at least once, and no keyword is present
    exactly when there is no occurrence. *)
Lemma present_le_occurrences (tl : str) (keywords : list str) :
  (0 <= present_keywords tl keywords
   <= Notions.total_occurrences tl keywords)%Z /\
  (present_keywords tl keywords = 0%Z
   <-> Notions.total_occurrences tl keywords = 0%Z).
Proof.
  induction keywords as [| k ks [IH1 IH2]].
  - split; [split; reflexivity | split; reflexivity].
  - rewrite present_keywords_cons, total_occurrences_cons.
    pose proof (count_positive tl (lower k)) as C.
    destruct (contains (lower k) tl).
    + assert (0 < count tl (lower k))%nat by now apply C. lia.
    + assert (count tl (lower k) = 0)%nat.
      { destruct (count tl (lower k)); [reflexivity |].
        assert (false = true) by (apply C; lia). discriminate. }
      lia.
Qed.

(** X6. Without keywords the rubric-driven sub-score is the neutral 50.
    With keywords it is the density term, 10 per occurrence up to 50, plus
    the coverage term, 50 times the share of the keywords present, with
    nothing for the final clamp to cut; it is 0 exactly when no keyword
    occurs in the transcript, and 100 exactly when every keyword is present
    and there are at least five occurrences. *)
Theorem rubric_driven_score_value :
  forall (transcript_lower : str) (keywords : list str),
    (keywords = [] ->
     _rubric_driven_score transcript_lower keywords == 50) /\
    (keywords <> [] ->
     let occurrences :=
       Notions.total_occurrences transcript_lower keywords in
     let present := present_keywords transcript_lower keywords in
     _rubric_driven_score transcript_lower keywords
     == inject_Z (Z.min 50 (occurrences * 10))
        + inject_Z present / inject_Z (len keywords) * 50 /\
     (_rubric_driven_score transcript_lower keywords == 0
      <-> present = 0%Z) /\
     (_rubric_driven_score transcript_lower keywords == 100
      <-> (5 <= occurrences)%Z /\ present = len keywords)).
Proof.
  intros tl kws. split; [intros ->; reflexivity |].
  intros NE occ present.
  pose proof (present_le_occurrences tl kws) as [[P0 P1] PZ].
  pose proof (present_keywords_bounds tl kws) as [_ PL].
  pose proof (len_pos kws NE) as LP.
  fold occ present in P0, P1, PZ, PL.
  pose proof (ratio_bounds present (len kws) (conj P0 PL) LP) as [R0 R1].
  set (ratio := inject_Z present / inject_Z (len kws)) in *.
  assert (0 <= inject_Z (Z.min 50 (occ * 10)) <= 50) as [D0 D1].
  { split.
    - apply inject_Z_nonneg. lia.
    - change 50 with (inject_Z 50). apply inject_Z_le. lia. }
  assert (_rubric_driven_score tl kws
          == inject_Z (Z.min 50 (occ * 10)) + ratio * 50) as E.
  { unfold _rubric_driven_score.
    destruct kws as [| k ks]; [congruence |]. cbn [is_empty]. cbv zeta.
    fold (Notions.total_occurrences tl (k :: ks)). fold occ present.
    unfold truediv. fold ratio.
    apply normalize_score_eq; [| lra].
    rewrite Z.gtb_ltb. destruct (Z.ltb_spec 0 occ) as [Hp | Hz]; [lra |].
    assert (Z.min 50 (occ * 10) = 0%Z) as -> by lia.
    change (inject_Z 0) with 0. lra. }
  split; [exact E |]. rewrite E. split.
  - split.
    + intros H.
      assert (ratio == 0) as Hr by lra.
      destruct (Z.eq_dec present 0) as [Hp | Hp]; [exact Hp |].
      exfalso. assert (0 < inject_Z present) by (apply inject_Z_pos; lia).
      pose proof (inject_Z_pos (len kws) LP).
      assert (0 < ratio); [| lra].
      unfold ratio. apply Qlt_shift_div_l; lra.
    + intros Hp. assert (occ = 0%Z) as Ho by now apply PZ.
      assert (Z.min 50 (occ * 10) = 0%Z) as -> by lia.
      subst ratio. rewrite Hp.
      change (inject_Z 0) with 0. unfold Qdiv. lra.
  - split.
    + intros H.
      assert (ratio == 1) as Hr by lra.
      assert (inject_Z (Z.min 50 (occ * 10)) == 50) as Hd by lra.
      apply (truediv_one present (len kws) LP) in Hr.
      change 50 with (inject_Z 50) in Hd.
      apply (proj1 (inject_Z_injective _ _)) in Hd.
      split; [lia | exact Hr].
    + intros [Ho Hp].
      assert (ratio == 1) as -> by now apply (truediv_one _ _ LP).
      assert (Z.min 50 (occ * 10) = 50%Z) as -> by lia.
      reflexivity.
Qed.

Lemma rubric_driven_score_value_witness :
  [lit "a"; lit "z"] <> [] /\
  _rubric_driven_score (lit "a b a") [lit "a"; lit "z"] == 45.
Proof.
  split; [discriminate |].
  destruct (rubric_driven_score_value (lit "a b a") [lit "a"; lit "z"])
    as [_ H].
  destruct H as [E _]; [discriminate |]. rewrite E. reflexivity.
Defined.

End SubScoresMore.

(** ** scoring_engine.py: more on the criterion scorer and the aggregator *)

Section ScoringMore.

Import Utils NLP Engine RubricInfo.

Variable word_tokenize : str -> list str.
Variable sent_tokenize : str -> list str.
Variable cosine : str -> str -> Q.

Lemma Qltb_comp (a b c d : Q) : a == c -> b == d -> Qltb a b = Qltb c d.
Proof.
  intros E1 E2. destruct (Qltb_spec a b), (Qltb_spec c d); auto; lra.
Qed.

(** [round(x, 2)] does not tell equal rationals apart. *)
Lemma round2_comp (x y : Q) : x == y -> round2 x == round2 y.
Proof.
  intros E. unfold round2.
  assert (Qfloor (x * 100) = Qfloor (y * 100)) as EF
    by (apply Qfloor_comp; now rewrite E).
  rewrite EF.
  rewrite (Qltb_comp (x * 100 - inject_Z (Qfloor (y * 100))) (1 # 2)
             (y * 100 - inject_Z (Qfloor (y * 100))) (1 # 2))
    by (rewrite ?E; reflexivity).
  rewrite (Qltb_comp (1 # 2) (x * 100 - inject_Z (Qfloor (y * 100)))
             (1 # 2) (y * 100 - inject_Z (Qfloor (y * 100))))
    by (rewrite ?E; reflexivity).
  reflexivity.
Qed.

(** [round(x, 2)] is within half a hundredth of [x]. *)
Lemma round2_error (x : Q) :
  x - (1 # 200) <= round2 x <= x + (1 # 200).
Proof.
  pose proof (Qfloor_le (x * 100)) as Hfl.
  pose proof (Qlt_floor (x * 100)) as Hlt.
  rewrite inject_Z_plus in Hlt. change (inject_Z 1) with 1 in Hlt.
  unfold round2. cbv zeta.
  set (f := Qfloor (x * 100)) in *.
  assert (forall n : Z, inject_Z n / 100 == inject_Z n * (1 # 100)) as D
    by (intros n; reflexivity).
  destruct (Qltb_spec (x * 100 - inject_Z f) (1 # 2)).
  - rewrite D. lra.
  - destruct (Qltb_spec (1 # 2) (x * 100 - inject_Z f)).
    + rewrite D, inject_Z_plus. change (inject_Z 1) with 1. lra.
    + destruct (Z.even f).
      * rewrite D. lra.
      * rewrite D, inject_Z_plus. change (inject_Z 1) with 1. lra.
Qed.

Lemma rule_based_score_range (tl : str) (kws : list str) (lo hi : Z) :
  0 <= _rule_based_score tl kws lo hi <= 100.
Proof. apply normalize_score_range. Qed.

Lemma rubric_driven_score_range (tl : str) (kws : list str) :
  0 <= _rubric_driven_score tl kws <= 100.
Proof.
  unfold _rubric_driven_score. destruct (is_empty kws); [lra |].
  apply normalize_score_range.
Qed.

(** X7. The score of a criterion is the blend of its three sub-scores, 40%
    rule-based, 40% semantic and 20% rubric-driven, rounded to two decimals:
    the blend is already in [0, 100], so the final clamp changes nothing, and
    the reported score is within 0.005 of the blend. *)
Theorem score_criterion_blend :
  forall (transcript transcript_lower criterion_name description : str)
         (keywords : list str) (weight : Q) (min_words max_words : Z),
    let r :=
      _score_criterion word_tokenize cosine transcript transcript_lower
        criterion_name description keywords weight min_words max_words in
    let blend :=
      _rule_based_score transcript_lower keywords min_words max_words
      * (4 # 10)
      + fst (_semantic_score cosine transcript description) * (4 # 10)
      + _rubric_driven_score transcript_lower keywords * (2 # 10) in
    0 <= blend <= 100 /\
    score r == round2 blend /\
    blend - (1 # 200) <= score r <= blend + (1 # 200).
Proof.
  intros t tl name d kws w lo hi r blend.
  pose proof (rule_based_score_range tl kws lo hi) as R1.
  pose proof (semantic_score_range cosine t d) as R2.
  pose proof (rubric_driven_score_range tl kws) as R3.
  assert (0 <= blend <= 100) as B by (subst blend; lra).
  assert (score r == round2 blend) as E.
  { subst r blend. unfold _score_criterion.
    destruct (_semantic_score cosine t d) as [sem sim]. cbn [score fst] in *.
    apply round2_comp, normalize_score_id. lra. }
  split; [exact B |]. split; [exact E |].
  rewrite E. apply round2_error.
Qed.

Lemma filter_length_mono {A : Type} (p q : A -> bool) (xs : list A) :
  (forall x, p x = true -> q x = true) ->
  (length (filter p xs) <= length (filter q xs))%nat.
Proof.
  intros H. induction xs as [| x xs IH]; simpl; [lia |].
  destruct (p x) eqn:Ep.
  - rewrite (H x Ep). simpl. lia.
  - destruct (q x); simpl; lia.
Qed.

Lemma filter_split_length {A : Type} (p : A -> bool) (xs : list A) :
  (length (filter p xs) + length (filter (fun x => negb (p x)) xs)
   = length xs)%nat.
Proof.
  induction xs as [| x xs IH]; simpl; [reflexivity |].
  destruct (p x); simpl; lia.
Qed.

(** X8. The keyword matcher finds at least what the rule-based score counts:
    every keyword that is a substring of the case-folded text is in [found],
    so the number of keywords present is at most the length of [found], and
    the share of keywords present is at most the match rate. *)
Theorem find_keyword_matches_covers_present :
  forall (text : str) (keywords : list str),
    let r := find_keyword_matches word_tokenize text keywords in
    (forall k, In k keywords ->
               contains (lower k) (lower text) = true -> In k (found r)) /\
    (present_keywords (lower text) keywords <= len (found r))%Z /\
    (keywords <> [] ->
     truediv (present_keywords (lower text) keywords) (len keywords)
     <= match_rate r).
Proof.
  intros text kws r. subst r.
  rewrite find_keyword_matches_found, find_keyword_matches_rate.
  assert (forall k, contains (lower k) (lower text) = true ->
                    Spec.appears word_tokenize text k = true) as Sub.
  { intros k H. unfold Spec.appears. now rewrite H. }
  assert (present_keywords (lower text) kws
          <= len (filter (Spec.appears word_tokenize text) kws))%Z as Le.
  { unfold present_keywords, len. apply Nat2Z.inj_le.
    apply filter_length_mono. exact Sub. }
  split; [| split].
  - intros k Hk Hc. apply filter_In. auto.
  - exact Le.
  - intros NE. destruct kws as [| k ks]; [congruence |]. cbn [is_empty].
    pose proof (inject_Z_pos _ (len_pos (k :: ks) NE)) as LP.
    apply inject_Z_le in Le. unfold truediv.
    apply Qle_shift_div_r; [exact LP |].
    unfold Qdiv. rewrite <- Qmult_assoc, (Qmult_comm (/ _)).
    rewrite Qmult_inv_r by lra. lra.
Qed.

Lemma score_criterion_fields
    (transcript transcript_lower criterion_name description : str)
    (keywords : list str) (w : Q) (min_words max_words : Z) :
  let r :=
    _score_criterion word_tokenize cosine transcript transcript_lower
      criterion_name description keywords w min_words max_words in
  criterion r = criterion_name /\
  keywords_found r
  = found (find_keyword_matches word_tokenize transcript keywords) /\
  keywords_missing r
  = missing (find_keyword_matches word_tokenize transcript keywords).
Proof.
  cbv zeta. unfold _score_criterion.
  destruct (_semantic_score cosine transcript description).
  repeat split.
Qed.



(** X10. The rubric summary agrees with every report on the same rubric: as
    many criteria, with the same names and weights in the same order, a total
    weight that is the sum of the weights in the report, and for each
    criterion a keyword count that is the number of keywords found plus the
    number of keywords missing. *)
Theorem get_rubric_info_agrees_with_report :
  forall (rubric : list rubric_row) (transcript : str) (rep : report),
    score_transcript word_tokenize sent_tokenize cosine rubric transcript
    = Ok rep ->
    let info := get_rubric_info rubric in
    criteria_count info = len (criteria_scores rep) /\
    map name (criteria info) = map criterion (criteria_scores rep) /\
    map info_weight (criteria info) = map weight (criteria_scores rep) /\
    total_weight info == Spec.sigma (map weight (criteria_scores rep)) /\
    map keyword_count (criteria info)
    = map (fun c => (len (keywords_found c) + len (keywords_missing c))%Z)
          (criteria_scores rep).
Proof.
  intros rubric transcript rep. unfold score_transcript. cbv zeta.
  set (t := preprocess_text transcript).
  destruct (analyze_text_quality word_tokenize sent_tokenize t) as [q | e];
    cbn [bind]; [| discriminate].
  intros [= <-]. cbv zeta. cbn [criteria_scores].
  unfold get_rubric_info.
  cbn [criteria_count total_weight criteria].
  rewrite !map_map. cbn [name info_weight keyword_count].
  split; [| split; [| split; [| split]]].
  - unfold len. now rewrite length_map.
  - apply map_ext. intros row. unfold score_row. symmetry.
    apply score_criterion_fields.
  - apply map_ext. intros row. unfold score_row. symmetry.
    apply score_criterion_weight.
  - rewrite sum_sigma.
    assert (map (fun row => weight (score_row word_tokenize cosine t
                                      (lower t) row)) rubric
            = map Weight rubric) as ->
      by (apply map_ext; intros row; unfold score_row;
          apply score_criterion_weight).
    reflexivity.
  - apply map_ext. intros row. unfold score_row.
    destruct (score_criterion_fields t (lower t) (Criterion row)
                (Description row) (parse_keywords (Keywords row))
                (Weight row) (Min_Words row) (Max_Words row))
      as (_ & -> & ->).
    rewrite find_keyword_matches_found, find_keyword_matches_missing.
    unfold len. rewrite <- Nat2Z.inj_add. f_equal. symmetry.
    apply filter_split_length.
Qed.

End ScoringMore.


Lemma get_rubric_info_agrees_with_report_witness :
  match
    Engine.score_transcript Sample.word_tokenize Sample.sent_tokenize
      (Sample.cosine (3 # 4))
      [Sample.row "a, b" 2 0 999; Sample.row "z" 1 2 3] (lit "a b c d")
  with
  | Ok rep =>
      RubricInfo.criteria_count
        (RubricInfo.get_rubric_info
           [Sample.row "a, b" 2 0 999; Sample.row "z" 1 2 3])
      = len (Engine.criteria_scores rep)
  | Raise _ => False
  end.
Proof.
  destruct (Engine.score_transcript _ _ _ _ _) as [rep | e] eqn:E.
  - eapply (get_rubric_info_agrees_with_report Sample.word_tokenize
              Sample.sent_tokenize (Sample.cosine (3 # 4))) in E.
    destruct E as (E & _). exact E.
  - vm_compute in E. discriminate E.
Defined.

Lemma find_keyword_matches_covers_present_witness :
  [lit "his"; lit "zebra"] <> [] /\
  truediv
    (Engine.present_keywords (lower (lit "This")) [lit "his"; lit "zebra"]) 2
  <= NLP.match_rate
       (NLP.find_keyword_matches Sample.word_tokenize (lit "This")
          [lit "his"; lit "zebra"]).
Proof.
  split; [discriminate |].
  apply (find_keyword_matches_covers_present Sample.word_tokenize
           (lit "This") [lit "his"; lit "zebra"]).
  discriminate.
Defined.

(** ** nlp_processor.py: similarity, relevance and phrases *)

Section NLPMore.

Import Utils NLP NLPText.

Variable word_tokenize : str -> list str.
Variable stop_words : list str.
Variable cosine : str -> str -> Q.

(** X11. [calculate_similarity] brings the cosine into [0, 1]: the result
    is always in that interval, it is the cosine itself when the cosine is in
    it, 0 for a negative cosine and 1 for a cosine above 1. *)
Theorem calculate_similarity_clamps :
  forall text1 text2 : str,
    let c := cosine text1 text2 in
    let s := calculate_similarity cosine text1 text2 in
    0 <= s <= 1 /\
    (0 <= c <= 1 -> s == c) /\
    (c < 0 -> s == 0) /\
    (1 < c -> s == 1).
Proof.
  intros t1 t2 c s. subst s. unfold calculate_similarity. cbv zeta.
  fold c.
  destruct (min_spec 1 c) as [[H1 ->] | [H1 ->]].
  - destruct (max_spec 0 c) as [[H2 ->] | [H2 ->]];
      repeat split; intros; lra.
  - destruct (max_spec 0 1) as [[H2 ->] | [H2 ->]];
      repeat split; intros; lra.
Qed.

Lemma sigma_bounds (a b : Q) (xs : list Q) :
  Forall (fun x => a <= x <= b) xs ->
  a * inject_Z (len xs) <= Spec.sigma xs <= b * inject_Z (len xs).
Proof.
  induction 1 as [| x xs [Ha Hb] _ IH].
  - unfold len. simpl. change (inject_Z 0) with 0. lra.
  - unfold len in *. simpl length. rewrite Nat2Z.inj_succ.
    unfold Z.succ. rewrite inject_Z_plus. change (inject_Z 1) with 1.
    simpl Spec.sigma. lra.
Qed.

(** X12. [score_semantic_relevance] is 0 without references; with references
    it lies between any two bounds that hold for the similarity to each
    reference, so it is always in [0, 1]. *)
Theorem score_semantic_relevance_bounds :
  forall (text : str) (reference_texts : list str),
    let r := score_semantic_relevance cosine text reference_texts in
    0 <= r <= 1 /\
    (reference_texts = [] -> r == 0) /\
    (forall a b : Q,
        reference_texts <> [] ->
        (forall ref, In ref reference_texts ->
                     a <= calculate_similarity cosine text ref <= b) ->
        a <= r <= b).
Proof.
  intros text refs r.
  assert (forall a b : Q,
             refs <> [] ->
             (forall ref, In ref refs ->
                          a <= calculate_similarity cosine text ref <= b) ->
             a <= r <= b) as B.
  { intros a b NE H. subst r. unfold score_semantic_relevance.
    destruct refs as [| ref0 refs']; [congruence |]. cbn [is_empty].
    cbv zeta.
    set (sims := map (fun ref => calculate_similarity cosine text ref)
                   (ref0 :: refs')).
    assert (Forall (fun x => a <= x <= b) sims) as F.
    { subst sims. apply Forall_map, Forall_forall. exact H. }
    pose proof (sigma_bounds a b sims F) as [S0 S1].
    assert (0 < inject_Z (len sims)) as LP
      by (apply inject_Z_pos, len_pos; subst sims; discriminate).
    rewrite sum_sigma. split.
    - apply Qle_shift_div_l; [exact LP | exact S0].
    - apply Qle_shift_div_r; [exact LP | exact S1]. }
  split; [| split; [| exact B]].
  - destruct refs as [| ref0 refs'].
    + subst r. cbn. lra.
    + apply B; [discriminate |]. intros ref _.
      apply calculate_similarity_range.
  - intros ->. subst r. reflexivity.
Qed.

Lemma isalnum_char_not_space (c : ascii) :
  isalnum_char c = true -> isspace c = false.
Proof.
  destruct c as [[] [] [] [] [] [] [] []]; vm_compute;
    intros H; try reflexivity; discriminate H.
Qed.

Lemma isalnum_is_word (w : str) :
  isalnum w = true -> Notions.is_word w = true.
Proof.
  unfold isalnum, Notions.is_word. destruct w as [| c r]; [discriminate |].
  intros H. cbn [is_empty negb andb].
  apply forallb_forall. intros x Hx.
  rewrite forallb_forall in H. now rewrite isalnum_char_not_space by auto.
Qed.

(** Reading a word only extends the current run. *)
Lemma split_from_word (w cur s : str) :
  forallb (fun c => negb (isspace c)) w = true ->
  split_from cur (w ++ s) = split_from (rev w ++ cur) s.
Proof.
  revert cur. induction w as [| c w IH]; intros cur H; simpl.
  - reflexivity.
  - simpl in H. apply andb_true_iff in H. destruct H as [Hc Hw].
    apply negb_true_iff in Hc. rewrite Hc, IH by exact Hw.
    now rewrite <- app_assoc.
Qed.

(** Words joined by single spaces are split back into the words. *)
Lemma split_join_words (ws : list str) :
  Forall (fun w => Notions.is_word w = true) ws ->
  split (join (lit " ") ws) = ws.
Proof.
  unfold split. induction 1 as [| w ws Hw Hws IH]; [reflexivity |].
  unfold Notions.is_word in Hw. apply andb_true_iff in Hw.
  destruct Hw as [Hne Hns].
  assert (rev w <> []) as NE.
  { destruct w; [discriminate Hne |]. simpl. now destruct (rev w). }
  destruct ws as [| v vs].
  - simpl join. rewrite <- (app_nil_r w) at 1.
    rewrite split_from_word by exact Hns. rewrite app_nil_r. simpl.
    destruct (rev w) eqn:E; [congruence |]. rewrite <- E.
    now rewrite rev_involutive.
  - change (join (lit " ") (w :: v :: vs))
      with (w ++ " "%char :: join (lit " ") (v :: vs)).
    rewrite split_from_word by exact Hns. rewrite app_nil_r.
    cbn [split_from]. rewrite space_isspace.
    destruct (rev w) eqn:E; [congruence |]. rewrite <- E.
    rewrite rev_involutive. f_equal. exact IH.
Qed.

Lemma slice_index_inside (n i : Z) :
  (0 <= i <= n)%Z -> slice_index n i = i.
Proof.
  intros H. unfold slice_index.
  destruct (Z.ltb_spec i 0); [lia |]. cbv zeta.
  destruct (Z.ltb_spec i 0); [lia |]. rewrite Z.gtb_ltb.
  destruct (Z.ltb_spec n i); [lia | reflexivity].
Qed.

(** A slice with both bounds inside the list. *)
Lemma slice_window {A : Type} (xs : list A) (i n : nat) :
  (i + n <= length xs)%nat ->
  slice xs (Z.of_nat i) (Z.of_nat i + Z.of_nat n)
  = firstn n (skipn i xs).
Proof.
  intros H. unfold slice, len. cbv zeta.
  rewrite !slice_index_inside by lia.
  f_equal; [lia |]. f_equal. lia.
Qed.

Lemma nth_map_seq {A : Type} (f : nat -> A) (m i : nat) (d : A) :
  (i < m)%nat -> nth i (map f (seq 0 m)) d = f i.
Proof.
  intros H.
  rewrite (nth_indep _ d (f 0%nat)) by (rewrite length_map, length_seq; lia).
  rewrite (map_nth f (seq 0 m) 0%nat i). now rewrite seq_nth.
Qed.

Lemma Forall_firstn_skipn {A : Type} (P : A -> Prop) (xs : list A)
    (i n : nat) :
  Forall P xs -> Forall P (firstn n (skipn i xs)).
Proof.
  intros H.
  rewrite <- (firstn_skipn i xs) in H. apply Forall_app in H.
  destruct H as [_ H].
  rewrite <- (firstn_skipn n (skipn i xs)) in H. apply Forall_app in H.
  tauto.
Qed.

(** X13. For a phrase length [n >= 1], [extract_phrases] returns one phrase
    for each window of [n] consecutive words, [len(words) - n + 1] of them
    and none when the text has fewer than [n] words; the words are those of
    [extract_keywords] without stop-word removal; and splitting the phrase
    number [i] at whitespace gives back the [n] words from position [i]. *)
Theorem extract_phrases_windows :
  forall (text : str) (n : nat),
    (1 <= n)%nat ->
    let words := extract_keywords word_tokenize stop_words text false in
    let phrases := extract_phrases word_tokenize text (Z.of_nat n) in
    length phrases = (length words + 1 - n)%nat /\
    (forall i : nat,
        (i < length phrases)%nat ->
        split (nth i phrases []) = firstn n (skipn i words) /\
        length (split (nth i phrases [])) = n) /\
    (n = 1%nat -> phrases = words).
Proof.
  intros text n Hn words phrases.
  unfold extract_keywords in words.
  unfold extract_phrases in phrases. cbv zeta in phrases.
  fold words in phrases.
  assert (Forall (fun w => Notions.is_word w = true) words) as HW.
  { subst words. apply Forall_forall. intros w Hw.
    apply filter_In in Hw. now apply isalnum_is_word. }
  assert (range (len words - Z.of_nat n + 1)
          = map Z.of_nat (seq 0 (length words + 1 - n))) as ER.
  { unfold range, len. f_equal. f_equal. lia. }
  assert (phrases
          = map (fun i => join (lit " ") (firstn n (skipn i words)))
              (seq 0 (length words + 1 - n))) as EP.
  { subst phrases. rewrite ER, map_map. apply map_ext_in.
    intros i Hi. apply in_seq in Hi. rewrite slice_window by lia.
    reflexivity. }
  assert (length phrases = (length words + 1 - n)%nat) as EL
    by now rewrite EP, length_map, length_seq.
  split; [exact EL |]. split.
  - intros i Hi. rewrite EL in Hi.
    assert (nth i phrases []
            = join (lit " ") (firstn n (skipn i words))) as ->.
    { rewrite EP. now rewrite nth_map_seq by exact Hi. }
    rewrite split_join_words by now apply Forall_firstn_skipn.
    split; [reflexivity |].
    rewrite length_firstn, length_skipn. lia.
  - intros ->. rewrite EP.
    replace (length words + 1 - 1)%nat with (length words) by lia.
    clear. induction words as [| w ws IH]; [reflexivity |].
    cbn [length seq map]. apply f_equal2; [reflexivity |].
    etransitivity; [| exact IH].
    rewrite <- seq_shift, map_map. apply map_ext. intros i. reflexivity.
Qed.

End NLPMore.

Lemma extract_phrases_windows_witness :
  (1 <= 2)%nat /\
  length (NLPText.extract_phrases Sample.word_tokenize
            (lit "Hello big World ! again") 2)
  = (length (NLPText.extract_keywords Sample.word_tokenize []
               (lit "Hello big World ! again") false) + 1 - 2)%nat.
Proof.
  split; [lia |].
  apply (extract_phrases_windows Sample.word_tokenize []
           (lit "Hello big World ! again") 2). lia.
Defined.

(** ** nlp_processor.py: normalizing twice *)

Section NormalizerMore.

Import NLP Engine.

Variable word_tokenize : str -> list str.
Variable sent_tokenize : str -> list str.
Variable cosine : str -> str -> Q.

(** A collapsed text is left as it is by the first substitution. *)
Lemma sub_whitespace_runs_fixed (s : str) (in_run : bool) :
  Spec.runs_collapsed s = true ->
  (in_run = true ->
   match s with [] => True | b :: _ => isspace b = false end) ->
  sub_whitespace_runs in_run s = s.
Proof.
  revert in_run. induction s as [| c r IH]; intros in_run HC HR;
    [reflexivity |].
  cbn [Spec.runs_collapsed] in HC. apply andb_true_iff in HC.
  destruct HC as [Hc Hr]. cbn [sub_whitespace_runs].
  destruct (isspace c) eqn:Ec.
  - destruct in_run; [specialize (HR eq_refl); congruence |].
    apply andb_true_iff in Hc. destruct Hc as [Hsp Hnext].
    apply Ascii.eqb_eq in Hsp. subst c. f_equal.
    apply IH; [exact Hr |]. intros _.
    destruct r as [| b t]; [exact I |]. now apply negb_true_iff.
  - f_equal. apply IH; [exact Hr | discriminate].
Qed.

(** The output of the normalizer has kept characters only. *)
Lemma preprocess_text_kept (text : str) :
  Forall (fun c => kept_char c = true) (preprocess_text text).
Proof.
  unfold preprocess_text, sub_special_chars. cbv zeta.
  apply strip_Forall, Forall_forall. intros c Hc.
  now apply filter_In in Hc.
Qed.

Lemma preprocess_text_clean (text : str) :
  Forall (fun c => kept_char c = true) text ->
  preprocess_text text = strip (sub_whitespace_runs false text) /\
  preprocess_text (preprocess_text text) = preprocess_text text.
Proof.
  intros H.
  assert (forall s, Forall (fun c => kept_char c = true) s ->
                    preprocess_text s = strip (sub_whitespace_runs false s))
    as E.
  { intros s Hs. unfold preprocess_text, sub_special_chars. cbv zeta.
    rewrite filter_fixed; [reflexivity |].
    now apply sub_whitespace_runs_Forall. }
  split; [now apply E |].
  rewrite (E (preprocess_text text)) by apply preprocess_text_kept.
  rewrite (E text H).
  rewrite sub_whitespace_runs_fixed.
  - apply strip_idempotent.
  - apply strip_runs_collapsed, sub_whitespace_runs_collapsed.
  - discriminate.
Qed.

(** X14. On a text without special characters the normalizer is idempotent,
    and scoring the normalized text gives what scoring the text gives.  In
    general a second pass can still change the text, but never a third: the
    output of the normalizer has no special character left. *)
Theorem preprocess_text_idempotent :
  forall text : str,
    (Forall (fun c => kept_char c = true) text ->
     preprocess_text (preprocess_text text) = preprocess_text text /\
     forall rubric : list rubric_row,
       score_transcript word_tokenize sent_tokenize cosine rubric
         (preprocess_text text)
       = score_transcript word_tokenize sent_tokenize cosine rubric text) /\
    preprocess_text (preprocess_text (preprocess_text text))
    = preprocess_text (preprocess_text text).
Proof.
  intros text. split.
  - intros H. destruct (preprocess_text_clean text H) as [_ E].
    split; [exact E |]. intros rubric. unfold score_transcript.
    cbv zeta. now rewrite E.
  - apply preprocess_text_clean, preprocess_text_kept.
Qed.

End NormalizerMore.

Lemma preprocess_text_idempotent_witness :
  Forall (fun c => NLP.kept_char c = true) (lit "  Hello   world!  ") /\
  NLP.preprocess_text (NLP.preprocess_text (lit "  Hello   world!  "))
  = NLP.preprocess_text (lit "  Hello   world!  ").
Proof.
  assert (Forall (fun c => NLP.kept_char c = true)
            (lit "  Hello   world!  ")) as H
    by (repeat constructor).
  split; [exact H |].
  destruct (preprocess_text_idempotent Sample.word_tokenize
              Sample.sent_tokenize (Sample.cosine (1 # 2))
              (lit "  Hello   world!  ")) as [E _].
  destruct (E H) as [E' _]. exact E'.
Defined.

(** ** app.py: the answers of the two scoring endpoints *)

Section Endpoints.

Import Utils NLP Engine Json App Batch.

Variable word_tokenize : str -> list str.
Variable sent_tokenize : str -> list str.
Variable cosine : str -> str -> Q.

Lemma init_scoring_engine_ok (create : result (list rubric_row))
    (st : engine_state) (r : list rubric_row) :
  Notions.loaded create st = Some r ->
  init_scoring_engine create st
  = (Some r, Notions.init_events create st, Ok r).
Proof.
  destruct st as [r0 |]; [| destruct create as [r0 | e]]; cbn;
    intros [= <-]; reflexivity.
Qed.

Lemma init_scoring_engine_raise (create : result (list rubric_row))
    (st : engine_state) :
  Notions.loaded create st = None ->
  exists e, create = Raise e /\ st = None /\
            init_scoring_engine create st = (None, [InitFailed e], Raise e).
Proof.
  destruct st as [r0 |]; [| destruct create as [r0 | e]]; cbn;
    try discriminate.
  intros _. exists e. repeat split.
Qed.

Lemma lookup_nil (key : str) : lookup key [] = None.
Proof. reflexivity. Qed.

(** A member of the body is found by the handlers. *)
Lemma field_found (key : str) (body : result json) (x : json) :
  Notions.field key body = Some x ->
  exists data,
    body = Ok data /\ truthy data = true /\
    contains_key key data = Ok true /\ getitem data key = Ok x.
Proof.
  destruct body as [[| | | | | | members] | e]; try discriminate.
  cbn [Notions.field]. intros L. exists (JObject members).
  split; [reflexivity |]. split.
  - destruct members; [discriminate L | reflexivity].
  - cbn [contains_key getitem]. rewrite L. split; reflexivity.
Qed.

Lemma getitem_field (key : str) (data x : json) :
  getitem data key = Ok x -> Notions.field key (Ok data) = Some x.
Proof.
  destruct data; try discriminate. cbn [getitem Notions.field].
  destruct (lookup key members); [congruence | discriminate].
Qed.

(** The score endpoint on a body whose [transcript] is a string. *)
Lemma score_endpoint_string (create : result (list rubric_row))
    (st : engine_state) (body : result json) (t : str) :
  Notions.field (lit "transcript") body = Some (JString t) ->
  score_endpoint word_tokenize sent_tokenize cosine create st body
  = if negb (Notions.is_valid t) then
      (st, [], Failure 400 (message (validate_transcript t)))
    else
      match init_scoring_engine create st with
      | (st', init_events, Raise e) => (st', init_events, InternalError e)
      | (st', init_events, Ok engine_rubric) =>
          match score_transcript word_tokenize sent_tokenize cosine
                  engine_rubric t with
          | Ok result =>
              (st', init_events ++ [ScoreTranscript t],
               Success result (get_score_category (overall_score result)))
          | Raise e =>
              (st', init_events ++ [ScoreTranscript t], InternalError e)
          end
      end.
Proof.
  intros F. destruct (field_found _ _ _ F) as (data & -> & T & C & G).
  unfold score_endpoint. rewrite T, C, G. reflexivity.
Qed.

(** The score endpoint on any other body: no call, the engine left as it
    was, and an answer that is not a success.  The answer is status 500 for
    an exception of [request.get_json()], of the test ['transcript' in data]
    or of [validate_transcript], and status 400 otherwise. *)
Lemma score_endpoint_other (create : result (list rubric_row))
    (st : engine_state) (body : result json) :
  (forall t, Notions.field (lit "transcript") body <> Some (JString t)) ->
  exists answer,
    score_endpoint word_tokenize sent_tokenize cosine create st body
    = (st, [], answer) /\
    (forall rep category, answer <> Success rep category) /\
    (forall status error, answer = Failure status error -> status = 400%Z) /\
    (forall e, body = Raise e -> answer = InternalError e) /\
    (forall v,
        Notions.field (lit "transcript") body = Some v ->
        answer = if truthy v then InternalError AttributeError
                 else Failure 400 (lit "Transcript is empty")) /\
    (forall data,
        body = Ok data ->
        Notions.field (lit "transcript") body = None ->
        answer = Failure 400 (lit "Missing transcript in request body") \/
        (truthy data = true /\ answer = InternalError TypeError)).
Proof.
  intros N. destruct body as [data | e].
  2:{ exists (InternalError e). repeat split; try discriminate.
      now intros e' [= <-]. }
  destruct (Notions.field (lit "transcript") (Ok data)) as [v |] eqn:F.
  - destruct (field_found _ _ _ F) as (data' & [= <-] & T & C & G).
    unfold score_endpoint. rewrite T, C, G. cbn [negb].
    destruct v; try (now destruct (N _ eq_refl));
      match goal with
      | |- context [if ?b then _ else _] => destruct b eqn:Tv
      end;
      eexists; (split; [reflexivity |]);
      repeat split; try discriminate;
      try (now intros ? ? [= <- _]);
      try (intros v' [= <-]; now rewrite Tv).
  - unfold score_endpoint.
    destruct (truthy data) eqn:T; cbn [negb].
    2:{ eexists. split; [reflexivity |]. repeat split; try discriminate.
        - now intros ? ? [= <- _].
        - intros d _ _. now left. }
    destruct data; cbn [truthy] in T; try discriminate T;
      cbn [contains_key getitem Notions.field] in *;
      try rewrite F;
      repeat match goal with
        | |- context [if ?b then _ else _] => destruct b
        | |- context [match (if ?b then _ else _) with _ => _ end] =>
            destruct b
        | |- context [match Ok ?b with _ => _ end] => destruct b
        end;
      eexists; (split; [reflexivity |]);
      repeat split; try discriminate;
      try (now intros ? ? [= <- _]);
      try (intros d [= <-] _; cbn [truthy]; auto).
Qed.

(** X15. One request to the score endpoint, whatever
    [request.get_json()] and [get_scoring_engine()] do.  The endpoint scores
    only what it has validated: a call to score a transcript is made only
    for the string that the body holds under [transcript], and only if it
    is valid.  A success carries the report of the engine on that string,
    and the category of its overall score.  An answer with one of the
    handler's own messages has status 400, and then no call was made and
    the engine is as it was.  The engine changes only by being created, when
    the server held none and the creation succeeds.  A valid transcript is
    scored whenever an engine is at hand, and the answer is the report, or
    status 500 if the scoring raises; if the engine has to be created and
    the creation raises, the answer is status 500 and nothing is scored.  An
    invalid string is answered with the message of the validation.  A
    [transcript] that is not a string is answered with 'Transcript is empty'
    if it is false and with status 500 otherwise.  A body without
    [transcript] is answered with 'Missing transcript in request body', or
    with status 500 when it is a true value on which the membership test or
    the indexing raises.  An exception of [request.get_json()] is answered
    with status 500. *)
Theorem score_endpoint_answers :
  forall (create : result (list rubric_row)) (st : engine_state)
         (body : result json),
    let '(st', events, answer) :=
      score_endpoint word_tokenize sent_tokenize cosine create st body in
    (forall t,
        In (ScoreTranscript t) events ->
        Notions.field (lit "transcript") body = Some (JString t) /\
        Notions.is_valid t = true) /\
    (forall rep category,
        answer = Success rep category ->
        exists t r,
          Notions.field (lit "transcript") body = Some (JString t) /\
          Notions.is_valid t = true /\
          st' = Some r /\
          score_transcript word_tokenize sent_tokenize cosine r t = Ok rep /\
          category = get_score_category (overall_score rep)) /\
    (forall status error,
        answer = Failure status error ->
        status = 400%Z /\ st' = st /\ events = []) /\
    (st' = st \/
     (st = None /\ exists r, create = Ok r /\ st' = Some r)) /\
    (forall t r,
        Notions.field (lit "transcript") body = Some (JString t) ->
        Notions.is_valid t = true ->
        Notions.loaded create st = Some r ->
        st' = Some r /\
        events = Notions.init_events create st ++ [ScoreTranscript t] /\
        answer
        = match score_transcript word_tokenize sent_tokenize cosine r t with
          | Ok rep => Success rep (get_score_category (overall_score rep))
          | Raise e => InternalError e
          end) /\
    (forall t,
        Notions.field (lit "transcript") body = Some (JString t) ->
        Notions.is_valid t = true ->
        Notions.loaded create st = None ->
        exists e,
          create = Raise e /\ st' = None /\ events = [InitFailed e] /\
          answer = InternalError e) /\
    (forall t,
        Notions.field (lit "transcript") body = Some (JString t) ->
        Notions.is_valid t = false ->
        answer = Failure 400 (message (validate_transcript t))) /\
    (forall v,
        Notions.field (lit "transcript") body = Some v ->
        (forall t, v <> JString t) ->
        answer = if truthy v then InternalError AttributeError
                 else Failure 400 (lit "Transcript is empty")) /\
    (forall data,
        body = Ok data ->
        Notions.field (lit "transcript") body = None ->
        answer = Failure 400 (lit "Missing transcript in request body") \/
        (truthy data = true /\ answer = InternalError TypeError)) /\
    (forall e, body = Raise e -> answer = InternalError e).
Proof.
  intros create st body.
  assert ((exists t, Notions.field (lit "transcript") body
                     = Some (JString t)) \/
          (forall t, Notions.field (lit "transcript") body
                     <> Some (JString t))) as [[t F] | N].
  { destruct (Notions.field (lit "transcript") body) as [[]|];
      try (right; intros ?; discriminate).
    left. now eexists. }
  - rewrite (score_endpoint_string create st body t F).
    assert (forall v, Notions.field (lit "transcript") body = Some v ->
                      (forall t, v <> JString t) -> False) as NV.
    { intros v F' NS. rewrite F in F'. injection F' as <-.
      now destruct (NS t). }
    assert (forall data : json,
               body = Ok data ->
               Notions.field (lit "transcript") body = None -> False) as NM.
    { intros data _ F'. rewrite F in F'. discriminate F'. }
    assert (forall e, body = Raise e -> False) as NR.
    { intros e ->. discriminate F. }
    assert (forall t',
               Notions.field (lit "transcript") body = Some (JString t') ->
               t' = t) as SAME.
    { intros t' F'. rewrite F in F'. now injection F' as <-. }
    destruct (Notions.is_valid t) eqn:V; cbn [negb].
    + destruct (Notions.loaded create st) as [r |] eqn:L.
      * rewrite (init_scoring_engine_ok _ _ _ L).
        assert (Some r = st \/
                st = None /\ (exists r0, create = Ok r0 /\ Some r = Some r0))
          as HS.
        { destruct st as [r0 |]; [left; now cbn in L |].
          destruct create as [r0 | e]; [| discriminate L].
          right. split; [reflexivity |]. exists r0. now cbn in L. }
        assert (forall t',
                   In (ScoreTranscript t')
                     (Notions.init_events create st ++ [ScoreTranscript t]) ->
                   Notions.field (lit "transcript") body
                   = Some (JString t') /\ Notions.is_valid t' = true)
          as CALLS.
        { intros t' [I | [I | []]] % in_app_or.
          - destruct st as [r0 |]; [destruct I |].
            destruct create; destruct I as [I | []]; discriminate I.
          - injection I as <-. now split. }
        destruct (score_transcript word_tokenize sent_tokenize cosine r t)
          as [rep | e] eqn:E;
          (split; [exact CALLS |]);
          (split; [try discriminate |]);
          [ intros rep' c' [= <- <-]; exists t, r; repeat split; auto | | ];
          (split; [discriminate |]); (split; [exact HS |]);
          (split;
           [intros t' r' F' _ [= <-];
            rewrite (SAME t' F'), E; repeat split |]);
          (split; [discriminate |]);
          (split; [intros t' F' V'; rewrite (SAME t' F'), V in V';
                   discriminate V' |]);
          (split; [intros v Fv Nv; destruct (NV v Fv Nv) |]);
          (split; [intros d Ed Fd; destruct (NM d Ed Fd)
                  | intros e0 Ee; destruct (NR e0 Ee)]).
      * destruct (init_scoring_engine_raise _ _ L) as (e & -> & -> & ->).
        split; [intros t' [I | []]; discriminate I |].
        split; [discriminate |]. split; [discriminate |].
        split; [now left |]. split; [discriminate |].
        split; [intros _ _ _ _; exists e; repeat split |].
        split; [intros t' F' V'; rewrite (SAME t' F'), V in V';
                discriminate V' |].
        split; [intros v Fv Nv; destruct (NV v Fv Nv) |].
        split; [intros d Ed Fd; destruct (NM d Ed Fd)
               | intros e0 Ee; destruct (NR e0 Ee)].
    + split; [intros t' [] |]. split; [discriminate |].
      split; [intros ? ? [= <- _]; repeat split |].
      split; [now left |].
      split; [intros t' r' F' V'; rewrite (SAME t' F'), V in V';
              discriminate V' |].
      split; [intros t' F' V'; rewrite (SAME t' F'), V in V';
              discriminate V' |].
      split; [intros t' F' _; now rewrite (SAME t' F') |].
      split; [intros v Fv Nv; destruct (NV v Fv Nv) |].
        split; [intros d Ed Fd; destruct (NM d Ed Fd)
               | intros e0 Ee; destruct (NR e0 Ee)].
  - destruct (score_endpoint_other create st body N)
      as (answer & -> & NS & F4 & FR & FV & FM).
    split; [intros t' [] |].
    split; [intros rep c E; now destruct (NS rep c) |].
    split; [intros status error E;
            split; [now apply (F4 _ _ E) | now split] |].
    split; [now left |].
    split; [intros t r F; now destruct (N t) |].
    split; [intros t F; now destruct (N t) |].
    split; [intros t F; now destruct (N t) |].
    split; [intros v F _; now apply FV |].
    split; [exact FM | exact FR].
Qed.

(** The score endpoint on a [transcript] that is not a string and is
    false. *)
Lemma score_endpoint_false_value (create : result (list rubric_row))
    (st : engine_state) (v : json) :
  (forall t, v <> JString t) ->
  truthy v = false ->
  score_endpoint word_tokenize sent_tokenize cosine create st
    (Ok (JObject [(lit "transcript", v)]))
  = (st, [], Failure 400 (lit "Transcript is empty")).
Proof.
  intros NS T. unfold score_endpoint.
  cbn [truthy negb contains_key getitem lookup fold_left fst snd].
  destruct (str_eq_dec (lit "transcript") (lit "transcript")) as [_ | N];
    [| now destruct N].
  destruct v; try (now rewrite T); now destruct (NS s).
Qed.

Lemma field_transcript_request (v : json) :
  Notions.field (lit "transcript") (Ok (JObject [(lit "transcript", v)]))
  = Some v.
Proof.
  cbn. destruct (str_eq_dec (lit "transcript") (lit "transcript"))
    as [_ | N]; [reflexivity | now destruct N].
Qed.

(** One turn of the loop of [batch_score] on a transcript on which the
    validation returns: one entry is added, which says what the score
    endpoint answers on that transcript, and the transcript is scored if it
    is a valid string. *)
Lemma batch_loop_cons (er : list rubric_row) (i : Z) (v : json)
    (rest : list (Z * json)) (results : list item) (events : list event) :
  Notions.checkable v = true ->
  exists entry,
    batch_loop word_tokenize sent_tokenize cosine er ((i, v) :: rest)
      results events
    = batch_loop word_tokenize sent_tokenize cosine er rest
        (results ++ [entry])
        (events ++ map ScoreTranscript (Notions.valid_strings [v])) /\
    Notions.item_id entry = (i + 1)%Z /\
    forall create : result (list rubric_row),
      let '(_, _, answer) :=
        score_endpoint word_tokenize sent_tokenize cosine create (Some er)
          (Ok (JObject [(lit "transcript", v)])) in
      Notions.entry_matches (i + 1) answer entry.
Proof.
  intros C.
  assert ((exists t, v = JString t) \/
          ((forall t, v <> JString t) /\ truthy v = false))
    as [[t ->] | [NS T]].
  { destruct v; try (right; split; [discriminate |];
                     now apply negb_true_iff in C).
    left. now eexists. }
  - cbn [batch_loop Notions.valid_strings flat_map]. rewrite app_nil_r.
    fold (Notions.is_valid t).
    destruct (Notions.is_valid t) eqn:V.
    + destruct (score_transcript word_tokenize sent_tokenize cosine er t)
        as [rep | e] eqn:E;
        (eexists; split; [reflexivity |]; split; [reflexivity |]);
        intros create;
        rewrite (score_endpoint_string create (Some er) _ t
                   (field_transcript_request _)), V;
        cbn [negb init_scoring_engine]; rewrite E; cbn; auto.
    + cbn [map]. rewrite app_nil_r.
      eexists. split; [reflexivity |]. split; [reflexivity |].
      intros create.
      rewrite (score_endpoint_string create (Some er) _ t
                 (field_transcript_request _)), V.
      cbn. auto.
  - exists (Errored (i + 1) (lit "Transcript is empty")).
    split; [| split; [reflexivity |]].
    + destruct v; try (now destruct (NS s));
        cbn [batch_loop Notions.valid_strings flat_map map];
        rewrite ?T, app_nil_r; reflexivity.
    + intros create. rewrite (score_endpoint_false_value _ _ _ NS T).
      cbn. auto.
Qed.

(** The loop of [batch_score] on transcripts on which the validation
    returns: one entry per transcript, in order, and one call to the engine
    per valid string, in order. *)
Lemma batch_loop_checkable (er : list rubric_row) (ts : list json) (k : nat)
    (results : list item) (events : list event) :
  forallb Notions.checkable ts = true ->
  exists entries,
    batch_loop word_tokenize sent_tokenize cosine er
      (combine (map Z.of_nat (seq k (length ts))) ts) results events
    = (events ++ map ScoreTranscript (Notions.valid_strings ts),
       Ok (results ++ entries)) /\
    map Notions.item_id entries
    = map (fun i => (Z.of_nat i + 1)%Z) (seq k (length ts)) /\
    forall (i : nat) (create : result (list rubric_row)),
      (i < length ts)%nat ->
      let '(_, _, answer) :=
        score_endpoint word_tokenize sent_tokenize cosine create (Some er)
          (Ok (JObject [(lit "transcript", nth i ts JNull)])) in
      Notions.entry_matches (Z.of_nat (k + i) + 1) answer
        (nth i entries (Errored 0 [])).
Proof.
  revert k results events.
  induction ts as [| v ts IH]; intros k results events C.
  - exists []. cbn. rewrite !app_nil_r. repeat split. intros i _ Hi. lia.
  - cbn [forallb] in C. apply andb_true_iff in C as [Cv C].
    cbn [length seq map combine].
    destruct (batch_loop_cons er (Z.of_nat k) v
                (combine (map Z.of_nat (seq (S k) (length ts))) ts)
                results events Cv) as (entry & -> & Id & M).
    destruct (IH (S k) (results ++ [entry])
                (events ++ map ScoreTranscript (Notions.valid_strings [v]))
                C) as (entries & -> & Ids & Each).
    exists (entry :: entries). split; [| split].
    + f_equal.
      * rewrite <- !app_assoc, <- map_app. f_equal. f_equal.
        cbn [Notions.valid_strings flat_map]. now rewrite app_nil_r.
      * now rewrite <- app_assoc.
    + cbn [map]. now rewrite Ids, Id.
    + intros [| i] create Hi; cbn [nth].
      * rewrite Nat.add_0_r. apply M.
      * replace (k + S i)%nat with (S k + i)%nat by lia.
        apply Each. simpl in Hi. lia.
Qed.

(** The loop of [batch_score] stops at the first transcript that is neither
    a string nor false, after the calls for the valid strings before it. *)
Lemma batch_loop_abort (er : list rubric_row) (pre : list json) (v : json)
    (post : list json) (k : nat) (results : list item)
    (events : list event) :
  forallb Notions.checkable pre = true ->
  Notions.checkable v = false ->
  batch_loop word_tokenize sent_tokenize cosine er
    (combine (map Z.of_nat (seq k (length (pre ++ v :: post))))
       (pre ++ v :: post))
    results events
  = (events ++ map ScoreTranscript (Notions.valid_strings pre),
     Raise AttributeError).
Proof.
  revert k results events.
  induction pre as [| u pre IH]; intros k results events C Cv.
  - cbn [app length seq map combine Notions.valid_strings flat_map].
    rewrite app_nil_r.
    destruct v; try discriminate Cv; cbn [Notions.checkable] in Cv;
      apply negb_false_iff in Cv; cbn [batch_loop]; now rewrite Cv.
  - cbn [forallb] in C. apply andb_true_iff in C as [Cu C].
    cbn [app length seq map combine].
    destruct (batch_loop_cons er (Z.of_nat k) u
                (combine (map Z.of_nat
                            (seq (S k) (length (pre ++ v :: post))))
                   (pre ++ v :: post))
                results events Cu) as (entry & -> & _).
    rewrite (IH (S k) _ _ C Cv). f_equal.
    rewrite <- !app_assoc, <- map_app. f_equal. f_equal.
    cbn [Notions.valid_strings flat_map]. now rewrite app_nil_r.
Qed.

(** A list of transcripts is accepted by the validation throughout, or has
    a first transcript on which it raises. *)
Lemma checkable_split (ts : list json) :
  forallb Notions.checkable ts = true \/
  exists pre v post,
    ts = pre ++ v :: post /\
    forallb Notions.checkable pre = true /\ Notions.checkable v = false.
Proof.
  induction ts as [| u ts [IH | (pre & v & post & -> & P & V)]].
  - now left.
  - destruct (Notions.checkable u) eqn:U.
    + left. cbn. now rewrite U.
    + right. now exists [], u, ts.
  - destruct (Notions.checkable u) eqn:U.
    + right. exists (u :: pre), v, post. cbn. rewrite U. auto.
    + right. now exists [], u, (pre ++ v :: post).
Qed.

(** The batch endpoint on a body whose [transcripts] is an array. *)
Lemma batch_score_array (create : result (list rubric_row))
    (st : engine_state) (body : result json) (ts : list json) :
  Notions.field (lit "transcripts") body = Some (JArray ts) ->
  batch_score word_tokenize sent_tokenize cosine create st body
  = match init_scoring_engine create st with
    | (st', init_events, Raise e) => (st', init_events, BatchInternalError e)
    | (st', init_events, Ok engine_rubric) =>
        match batch_loop word_tokenize sent_tokenize cosine engine_rubric
                (enumerate ts) [] init_events with
        | (events, Ok results) =>
            (st', events, BatchSuccess results (len results))
        | (events, Raise e) => (st', events, BatchInternalError e)
        end
    end.
Proof.
  intros F. destruct (field_found _ _ _ F) as (data & -> & T & C & G).
  unfold batch_score. rewrite T, C, G. reflexivity.
Qed.

(** X16. The batch endpoint on a body whose [transcripts] is an array.  If
    the server holds no engine and its creation raises, the answer is
    status 500 and no transcript is looked at.  Otherwise the engine is
    there after the request, and: if every transcript is a string or a
    false value, the answer is a success with one entry per transcript, ids
    1, 2, ... in the order of the request and a count equal to the number of
    transcripts, the engine being called once for each valid string, in
    order; if not, the first transcript that is neither a string nor false
    ends the batch, which is answered with status 500 and no entry at all,
    after the valid strings before it have been scored. *)
Theorem batch_score_answers :
  forall (create : result (list rubric_row)) (st : engine_state)
         (body : result json) (transcripts : list json),
    Notions.field (lit "transcripts") body = Some (JArray transcripts) ->
    let '(st', events, answer) :=
      batch_score word_tokenize sent_tokenize cosine create st body in
    match Notions.loaded create st with
    | None =>
        exists e,
          create = Raise e /\ st' = None /\ events = [InitFailed e] /\
          answer = BatchInternalError e
    | Some r =>
        st' = Some r /\
        (forallb Notions.checkable transcripts = true ->
         exists entries,
           answer = BatchSuccess entries (len transcripts) /\
           length entries = length transcripts /\
           map Notions.item_id entries
           = map (fun i => (i + 1)%Z) (range (len transcripts)) /\
           events
           = Notions.init_events create st
             ++ map ScoreTranscript (Notions.valid_strings transcripts)) /\
        (forall pre v post,
            transcripts = pre ++ v :: post ->
            forallb Notions.checkable pre = true ->
            Notions.checkable v = false ->
            answer = BatchInternalError AttributeError /\
            events
            = Notions.init_events create st
              ++ map ScoreTranscript (Notions.valid_strings pre))
    end.
Proof.
  intros create st body ts F. rewrite (batch_score_array _ _ _ _ F).
  destruct (Notions.loaded create st) as [r |] eqn:L.
  - rewrite (init_scoring_engine_ok _ _ _ L).
    unfold enumerate, range, len. rewrite Nat2Z.id.
    destruct (checkable_split ts) as [C | (pre & v & post & -> & P & V)].
    + destruct (batch_loop_checkable r ts 0 []
                  (Notions.init_events create st) C)
        as (entries & -> & Ids & _).
      cbn [app].
      assert (length entries = length ts) as EL.
      { rewrite <- (length_map Notions.item_id), Ids.
        now rewrite length_map, length_seq. }
      split; [reflexivity |]. split.
      * intros _. exists entries. split; [| split; [| split]].
        -- unfold len. now rewrite EL.
        -- exact EL.
        -- rewrite Ids, map_map. reflexivity.
        -- reflexivity.
      * intros pre v post -> P V. rewrite forallb_app in C.
        apply andb_true_iff in C as [_ C]. cbn [forallb] in C.
        rewrite V in C. discriminate C.
    + rewrite (batch_loop_abort r pre v post 0 [] _ P V).
      split; [reflexivity |]. split.
      * intros C. rewrite forallb_app in C.
        apply andb_true_iff in C as [_ C]. cbn [forallb] in C.
        rewrite V in C. discriminate C.
      * intros pre' v' post' E P' V'.
        assert (pre' = pre) as ->; [| now split].
        clear - E P P' V V'. revert pre' E P'.
        induction pre as [| u pre IH]; intros [| u' pre'] E P'.
        -- reflexivity.
        -- cbn in E. injection E as <- _. cbn in P'.
           rewrite V in P'. discriminate P'.
        -- cbn in E. injection E as -> _. cbn in P.
           rewrite V' in P. discriminate P.
        -- cbn in E. injection E as <- E. cbn in P, P'.
           apply andb_true_iff in P as [_ P].
           apply andb_true_iff in P' as [_ P'].
           f_equal. now apply IH.
  - destruct (init_scoring_engine_raise _ _ L) as (e & -> & -> & ->).
    exists e. repeat split.
Qed.

(** X17. When a batch succeeds, each entry says what the score endpoint
    answers on the same transcript alone, the engine being the one the
    batch has used: entry number [i] carries the id [i + 1], and the report
    and category, or the validation message, or the exception of the
    scoring, that the score endpoint gives for the body with just that
    transcript.  So within a batch that succeeds no transcript changes the
    entry of another, and the count is the number of transcripts. *)
Theorem batch_score_entries :
  forall (create : result (list rubric_row)) (st st' : engine_state)
         (body : result json) (transcripts : list json)
         (events : list event) (entries : list item) (count : Z),
    Notions.field (lit "transcripts") body = Some (JArray transcripts) ->
    batch_score word_tokenize sent_tokenize cosine create st body
    = (st', events, BatchSuccess entries count) ->
    count = len transcripts /\
    length entries = length transcripts /\
    forall (i : nat) (create' : result (list rubric_row)),
      (i < length transcripts)%nat ->
      let '(_, _, answer) :=
        score_endpoint word_tokenize sent_tokenize cosine create' st'
          (Ok (JObject [(lit "transcript", nth i transcripts JNull)])) in
      Notions.entry_matches (Z.of_nat i + 1) answer
        (nth i entries (Errored 0 [])).
Proof.
  intros create st st' body ts events entries count F.
  rewrite (batch_score_array _ _ _ _ F).
  destruct (Notions.loaded create st) as [r |] eqn:L.
  2:{ destruct (init_scoring_engine_raise _ _ L) as (e & -> & -> & ->).
      discriminate. }
  rewrite (init_scoring_engine_ok _ _ _ L).
  unfold enumerate, range, len. rewrite Nat2Z.id.
  destruct (checkable_split ts) as [C | (pre & v & post & -> & P & V)].
  2:{ rewrite (batch_loop_abort r pre v post 0 [] _ P V). discriminate. }
  destruct (batch_loop_checkable r ts 0 [] (Notions.init_events create st) C)
    as (entries' & -> & Ids & Each).
  cbn [app]. intros [= <- _ <- <-].
  assert (length entries' = length ts) as EL.
  { rewrite <- (length_map Notions.item_id), Ids.
    now rewrite length_map, length_seq. }
  split; [now rewrite EL |]. split; [exact EL |].
  intros i create' Hi. exact (Each i create' Hi).
Qed.

End Endpoints.

Lemma batch_score_answers_witness :
  Notions.field (lit "transcripts")
    (Batch.batch_request
       [Json.JString (lit "x"); Json.JInt 5; Json.JString (lit "y")])
  = Some (Json.JArray
            [Json.JString (lit "x"); Json.JInt 5; Json.JString (lit "y")]) /\
  Batch.batch_score Sample.word_tokenize Sample.sent_tokenize
    (Sample.cosine (1 # 2)) (Ok []) None
    (Batch.batch_request
       [Json.JString (lit "x"); Json.JInt 5; Json.JString (lit "y")])
  = (Some [], [App.InitEngine], Batch.BatchInternalError AttributeError).
Proof.
  split; [reflexivity |].
  pose proof (batch_score_answers Sample.word_tokenize Sample.sent_tokenize
                (Sample.cosine (1 # 2)) (Ok []) None
                (Batch.batch_request
                   [Json.JString (lit "x"); Json.JInt 5;
                    Json.JString (lit "y")])
                [Json.JString (lit "x"); Json.JInt 5; Json.JString (lit "y")]
                eq_refl) as H.
  destruct (Batch.batch_score _ _ _ _ _ _) as [[st' events] answer].
  cbn [Notions.loaded] in H. destruct H as (-> & _ & H).
  destruct (H [Json.JString (lit "x")] (Json.JInt 5)
              [Json.JString (lit "y")] eq_refl eq_refl eq_refl) as [-> ->].
  reflexivity.
Defined.

Lemma batch_score_entries_witness :
  Notions.field (lit "transcripts")
    (Batch.batch_request
       [Json.JNull; Json.JString (lit "! ! ! ! ! ! ! ! ! !")])
  = Some (Json.JArray
            [Json.JNull; Json.JString (lit "! ! ! ! ! ! ! ! ! !")]) /\
  Batch.batch_score Sample.word_tokenize Sample.sent_tokenize
    (Sample.cosine (1 # 2)) (Ok []) None
    (Batch.batch_request
       [Json.JNull; Json.JString (lit "! ! ! ! ! ! ! ! ! !")])
  = (Some [],
     [App.InitEngine; App.ScoreTranscript (lit "! ! ! ! ! ! ! ! ! !")],
     Batch.BatchSuccess
       [Batch.Errored 1 (lit "Transcript is empty");
        Batch.Raised 2 ZeroDivisionError] 2) /\
  Notions.entry_matches 2 (App.InternalError ZeroDivisionError)
    (Batch.Raised 2 ZeroDivisionError).
Proof.
  split; [reflexivity |]. split; [reflexivity |].
  destruct (batch_score_entries Sample.word_tokenize Sample.sent_tokenize
              (Sample.cosine (1 # 2)) (Ok []) None (Some [])
              (Batch.batch_request
                 [Json.JNull; Json.JString (lit "! ! ! ! ! ! ! ! ! !")])
              [Json.JNull; Json.JString (lit "! ! ! ! ! ! ! ! ! !")]
              [App.InitEngine;
               App.ScoreTranscript (lit "! ! ! ! ! ! ! ! ! !")]
              [Batch.Errored 1 (lit "Transcript is empty");
               Batch.Raised 2 ZeroDivisionError] 2 eq_refl eq_refl)
    as (_ & _ & Each).
  exact (Each 1%nat (Ok []) (le_n 2)).
Defined.

(** ** app.py: the engine over a run of the server *)

Section ServerRun.

Import Utils NLP Engine Json App Batch.

Variable word_tokenize : str -> list str.
Variable sent_tokenize : str -> list str.
Variable cosine : str -> str -> Q.

Lemma init_count_app (a b : list event) :
  Notions.init_count (a ++ b)
  = (Notions.init_count a + Notions.init_count b)%nat.
Proof.
  unfold Notions.init_count. now rewrite filter_app, length_app.
Qed.

Lemma init_count_scores (calls : list event) :
  forallb Notions.is_score calls = true -> Notions.init_count calls = 0%nat.
Proof.
  induction calls as [| [| e | t] calls IH]; cbn; try discriminate; auto.
Qed.

Lemma init_count_failures (failures : list event) :
  forallb Notions.is_init_failure failures = true ->
  Notions.init_count failures = 0%nat.
Proof.
  induction failures as [| [| e | t] failures IH]; cbn; try discriminate;
    auto.
Qed.

Lemma step_ok_idle (create : result (list rubric_row)) (st : engine_state) :
  Notions.step_ok create st st [].
Proof. destruct st; cbn; auto. Qed.

Lemma step_ok_engine (create : result (list rubric_row)) (st : engine_state)
    (r : list rubric_row) (calls : list event) :
  Notions.loaded create st = Some r ->
  forallb Notions.is_score calls = true ->
  Notions.step_ok create st (Some r) (Notions.init_events create st ++ calls).
Proof.
  destruct st as [r0 |]; [| destruct create as [r0 | e]]; cbn;
    intros [= <-] S; auto.
  right. exists r0, calls. auto.
Qed.

(** The calls of the loop of [batch_score] score transcripts. *)
Lemma batch_loop_events (er : list rubric_row) (items : list (Z * json)) :
  forall (results : list item) (events : list event),
  exists calls,
    fst (batch_loop word_tokenize sent_tokenize cosine er items results
           events)
    = events ++ calls /\
    forallb Notions.is_score calls = true.
Proof.
  induction items as [| [i v] items IH]; intros results events.
  - exists []. cbn. now rewrite app_nil_r.
  - destruct v; cbn [batch_loop];
      repeat match goal with
        | |- context [if ?b then _ else _] => destruct b
        | |- context [match score_transcript ?a ?b ?c ?d ?e with _ => _ end]
          => destruct (score_transcript a b c d e)
        end;
      try (exists []; cbn; now rewrite app_nil_r);
      try apply IH;
      match goal with
      | |- context [batch_loop _ _ _ _ _ ?res
                      (events ++ [ScoreTranscript ?t])] =>
          destruct (IH res (events ++ [ScoreTranscript t]))
            as (calls & -> & S);
          exists (ScoreTranscript t :: calls); rewrite <- app_assoc;
          split; [reflexivity | exact S]
      end.
Qed.

(** The batch endpoint on a body without an array of transcripts: no call,
    and the engine left as it was. *)
Lemma batch_score_other (create : result (list rubric_row))
    (st : engine_state) (body : result json) :
  (forall ts, Notions.field (lit "transcripts") body <> Some (JArray ts)) ->
  exists answer,
    batch_score word_tokenize sent_tokenize cosine create st body
    = (st, [], answer).
Proof.
  intros N. unfold batch_score.
  destruct body as [data | e]; [| eexists; reflexivity].
  destruct (truthy data); cbn [negb]; [| eexists; reflexivity].
  destruct (contains_key (lit "transcripts") data) as [[|] | e];
    try (eexists; reflexivity).
  destruct (getitem data (lit "transcripts")) as [x | e] eqn:G;
    [| eexists; reflexivity].
  apply getitem_field in G.
  destruct x; try (eexists; reflexivity). now destruct (N _ G).
Qed.

Lemma score_endpoint_step (create : result (list rubric_row))
    (st : engine_state) (body : result json) :
  let '(st', events, _) :=
    score_endpoint word_tokenize sent_tokenize cosine create st body in
  Notions.step_ok create st st' events.
Proof.
  assert ((exists t, Notions.field (lit "transcript") body
                     = Some (JString t)) \/
          (forall t, Notions.field (lit "transcript") body
                     <> Some (JString t))) as [[t F] | N].
  { destruct (Notions.field (lit "transcript") body) as [[]|];
      try (right; intros ?; discriminate).
    left. now eexists. }
  - rewrite (score_endpoint_string _ _ _ create st body t F).
    destruct (Notions.is_valid t); cbn [negb]; [| apply step_ok_idle].
    destruct (Notions.loaded create st) as [r |] eqn:L.
    + rewrite (init_scoring_engine_ok _ _ _ L).
      destruct (score_transcript _ _ _ r t);
        now apply step_ok_engine.
    + destruct (init_scoring_engine_raise _ _ L) as (e & -> & -> & ->).
      cbn. auto.
  - destruct (score_endpoint_other word_tokenize sent_tokenize cosine
                create st body N) as (answer & -> & _).
    apply step_ok_idle.
Qed.

Lemma batch_score_step (create : result (list rubric_row))
    (st : engine_state) (body : result json) :
  let '(st', events, _) :=
    batch_score word_tokenize sent_tokenize cosine create st body in
  Notions.step_ok create st st' events.
Proof.
  assert ((exists ts, Notions.field (lit "transcripts") body
                      = Some (JArray ts)) \/
          (forall ts, Notions.field (lit "transcripts") body
                      <> Some (JArray ts))) as [[ts F] | N].
  { destruct (Notions.field (lit "transcripts") body) as [[]|];
      try (right; intros ?; discriminate).
    left. now eexists. }
  - rewrite (batch_score_array _ _ _ create st body ts F).
    destruct (Notions.loaded create st) as [r |] eqn:L.
    + rewrite (init_scoring_engine_ok _ _ _ L).
      destruct (batch_loop_events r (enumerate ts) []
                  (Notions.init_events create st)) as (calls & E & S).
      destruct (batch_loop _ _ _ r (enumerate ts) [] _) as [events [res | e]];
        cbn [fst] in E; subst events; now apply step_ok_engine.
    + destruct (init_scoring_engine_raise _ _ L) as (e & -> & -> & ->).
      cbn. auto.
  - destruct (batch_score_other create st body N) as (answer & ->).
    apply step_ok_idle.
Qed.

Lemma get_rubric_step (create : result (list rubric_row))
    (st : engine_state) :
  let '(st', events, _) := get_rubric create st in
  Notions.step_ok create st st' events.
Proof.
  unfold get_rubric.
  destruct (Notions.loaded create st) as [r |] eqn:L.
  - rewrite (init_scoring_engine_ok _ _ _ L).
    rewrite <- (app_nil_r (Notions.init_events create st)).
    now apply step_ok_engine.
  - destruct (init_scoring_engine_raise _ _ L) as (e & -> & -> & ->).
    cbn. auto.
Qed.

Lemma serve_step (st : engine_state) (req : request)
    (rest : list request) :
  exists st1 events1,
    Notions.step_ok (Notions.request_create req) st st1 events1 /\
    serve word_tokenize sent_tokenize cosine st (req :: rest)
    = (fst (serve word_tokenize sent_tokenize cosine st1 rest),
       events1 ++ snd (serve word_tokenize sent_tokenize cosine st1 rest)).
Proof.
  destruct req as [create body | create body | create]; cbn [serve].
  - pose proof (score_endpoint_step create st body) as S.
    destruct (score_endpoint _ _ _ create st body) as [[st1 ev1] answer].
    exists st1, ev1. split; [exact S |].
    now destruct (serve _ _ _ st1 rest).
  - pose proof (batch_score_step create st body) as S.
    destruct (batch_score _ _ _ create st body) as [[st1 ev1] answer].
    exists st1, ev1. split; [exact S |].
    now destruct (serve _ _ _ st1 rest).
  - pose proof (get_rubric_step create st) as S.
    destruct (get_rubric create st) as [[st1 ev1] answer].
    exists st1, ev1. split; [exact S |].
    now destruct (serve _ _ _ st1 rest).
Qed.

(** Once created, the engine stays, and the calls score transcripts. *)
Lemma serve_created (r : list rubric_row) (requests : list request) :
  fst (serve word_tokenize sent_tokenize cosine (Some r) requests) = Some r /\
  forallb Notions.is_score
    (snd (serve word_tokenize sent_tokenize cosine (Some r) requests))
  = true.
Proof.
  induction requests as [| req rest [IH1 IH2]]; [split; reflexivity |].
  destruct (serve_step (Some r) req rest) as (st1 & ev1 & [-> S] & ->).
  cbn [fst snd]. split; [exact IH1 |].
  rewrite forallb_app, S, IH2. reflexivity.
Qed.

(** X18. Over any sequence of requests to the three endpoints that use the
    engine (score, batch and rubric), handled one after the other, the
    engine is created at most once.  If the server holds it at the start,
    it is kept and every call scores a transcript.  If not, then either it
    still holds none at the end and every call of the run is a creation
    that failed; or the run is: failed creations, then the one creation
    that succeeded, during a request whose rubric the engine holds at the
    end, then calls that score transcripts.  So no transcript is scored
    before the engine exists, and nothing is scored after a creation that
    failed until a later request has created the engine. *)
Theorem serve_creates_engine_once :
  forall (st : engine_state) (requests : list request),
    let '(st', events) :=
      serve word_tokenize sent_tokenize cosine st requests in
    (Notions.init_count events <= 1)%nat /\
    (forall r, st = Some r ->
               st' = Some r /\ forallb Notions.is_score events = true) /\
    (st = None ->
     (st' = None /\ forallb Notions.is_init_failure events = true) \/
     (exists r failures calls req,
         st' = Some r /\
         In req requests /\ Notions.request_create req = Ok r /\
         events = failures ++ InitEngine :: calls /\
         forallb Notions.is_init_failure failures = true /\
         forallb Notions.is_score calls = true)).
Proof.
  intros st requests.
  assert (forall reqs,
             let '(st', events) :=
               serve word_tokenize sent_tokenize cosine None reqs in
             (st' = None /\ forallb Notions.is_init_failure events = true) \/
             (exists r failures calls req,
                 st' = Some r /\
                 In req reqs /\ Notions.request_create req = Ok r /\
                 events = failures ++ InitEngine :: calls /\
                 forallb Notions.is_init_failure failures = true /\
                 forallb Notions.is_score calls = true)) as N.
  { induction reqs as [| req rest IH]; [now left |].
    destruct (serve_step None req rest) as (st1 & ev1 & S & ->).
    destruct S as [[-> F1] | (r & calls & C & -> & -> & S1)].
    - destruct (serve _ _ _ None rest) as [st2 ev2]. cbn [fst snd].
      destruct IH as [[-> F2] | (r & failures & calls & req' & -> & I & C
                                 & -> & F2 & S2)].
      + left. split; [reflexivity |]. now rewrite forallb_app, F1, F2.
      + right. exists r, (ev1 ++ failures), calls, req'.
        split; [reflexivity |]. split; [now right |]. split; [exact C |].
        split; [now rewrite <- app_assoc |]. split; [| exact S2].
        now rewrite forallb_app, F1, F2.
    - destruct (serve_created r rest) as [E1 E2].
      right. exists r, [], (calls ++ snd (serve word_tokenize sent_tokenize
                                            cosine (Some r) rest)), req.
      split; [exact E1 |]. split; [now left |]. split; [exact C |].
      split; [reflexivity |]. split; [reflexivity |].
      now rewrite forallb_app, S1, E2. }
  destruct st as [r |].
  - destruct (serve_created r requests) as [E1 E2].
    destruct (serve _ _ _ (Some r) requests) as [st' events].
    cbn [fst snd] in *. split; [| split; [| discriminate]].
    + rewrite (init_count_scores _ E2). lia.
    + intros r' [= <-]. auto.
  - specialize (N requests).
    destruct (serve _ _ _ None requests) as [st' events].
    split; [| split; [discriminate | intros _; exact N]].
    destruct N as [[_ F] | (r & failures & calls & req & _ & _ & _ & -> & F
                            & S)].
    + rewrite (init_count_failures _ F). lia.
    + rewrite init_count_app, (init_count_failures _ F).
      change (InitEngine :: calls) with ([InitEngine] ++ calls).
      rewrite init_count_app, (init_count_scores _ S). cbn. lia.
Qed.

End ServerRun.

(** A creation that failed leaves the server without engine, and the next
    request that needs the engine creates it. *)
Example serve_retries_creation :
  Batch.serve Sample.word_tokenize Sample.sent_tokenize
    (Sample.cosine (1 # 2)) None
    [Batch.RubricRequest (Raise FileNotFoundError);
     Batch.ScoreRequest (Ok []) (App.transcript_request (lit "Too short"));
     Batch.RubricRequest (Ok [Sample.row "a, b" 2 0 999])]
  = (Some [Sample.row "a, b" 2 0 999],
     [App.InitFailed FileNotFoundError; App.InitEngine]).
Proof. reflexivity. Qed.

(** ** utils.py: the feedback text *)

Section FeedbackFacts.

Import Utils Feedback.

Lemma join_nonempty (sep x : str) (r : list str) :
  x <> [] -> join sep (x :: r) <> [].
Proof.
  intros NE. simpl. destruct r; [exact NE |].
  destruct x; [congruence | discriminate].
Qed.

(** A joined text begins with its first part. *)
Lemma join_cons (sep x : str) (r : list str) :
  exists tail, join sep (x :: r) = x ++ tail.
Proof.
  destruct r as [| y r]; [exists []; simpl; now rewrite app_nil_r |].
  eexists. reflexivity.
Qed.

(** A joined text ends with the separator and its last part, when there are
    parts before it. *)
Lemma join_snoc (sep x : str) (l : list str) :
  l <> [] -> join sep (l ++ [x]) = join sep l ++ sep ++ x.
Proof.
  induction l as [| a l IH]; [congruence |]. intros _.
  destruct l as [| b l]; [reflexivity |].
  change (join sep ((a :: b :: l) ++ [x]))
    with (a ++ sep ++ join sep ((b :: l) ++ [x])).
  rewrite IH by discriminate.
  change (join sep (a :: b :: l)) with (a ++ sep ++ join sep (b :: l)).
  now rewrite <- !app_assoc.
Qed.

(** X19. The text [format_feedback] returns is never empty.  It begins with
    the performance band of the score: "Excellent performance." exactly from
    90 on, "Good performance." exactly from 75 to below 90, "Satisfactory
    performance." exactly from 60 to below 75, "Needs improvement." exactly
    from 40 to below 60, and "Requires significant improvement." exactly
    below 40.  When both bounds are set ([min_words > 0] and
    [max_words < 999]) it ends with the remark on the length, which agrees
    with the word-count status.  Otherwise it says nothing about the length,
    even when the word-count status is "too short" or "too long", and ends
    with the sentence on the semantic alignment (the similarity being a
    number). *)
Theorem format_feedback_sentences :
  forall (criterion : str) (score : Q)
         (keywords_found keywords_missing : list str)
         (semantic_similarity : Q) (word_count min_words max_words : Z),
    let text :=
      format_feedback criterion score keywords_found keywords_missing
        semantic_similarity word_count min_words max_words in
    text <> [] /\
    (startswith (lit "Excellent performance.") text = true
     <-> 90 <= score) /\
    (startswith (lit "Good performance.") text = true
     <-> 75 <= score /\ score < 90) /\
    (startswith (lit "Satisfactory performance.") text = true
     <-> 60 <= score /\ score < 75) /\
    (startswith (lit "Needs improvement.") text = true
     <-> 40 <= score /\ score < 60) /\
    (startswith (lit "Requires significant improvement.") text = true
     <-> score < 40) /\
    ((0 < min_words)%Z /\ (max_words < 999)%Z ->
     match get_word_count_status word_count min_words max_words with
     | too_short =>
         exists front,
           text
           = front ++ lit " " ++ lit "Content is brief ("
             ++ str_of_int word_count
             ++ lit " words). Consider expanding (recommended: "
             ++ str_of_int min_words ++ lit "+ words)."
     | too_long =>
         exists front,
           text
           = front ++ lit " " ++ lit "Content is lengthy ("
             ++ str_of_int word_count
             ++ lit " words). Consider being more concise (recommended: under "
             ++ str_of_int max_words ++ lit " words)."
     | within_range =>
         exists front,
           text
           = front ++ lit " " ++ lit "Good length ("
             ++ str_of_int word_count ++ lit " words)."
     | no_limit => False
     end) /\
    (~ ((0 < min_words)%Z /\ (max_words < 999)%Z) ->
     exists front,
       text
       = front ++ lit " "
         ++ (if Qgeb semantic_similarity (75 # 100)
             then lit "Strong semantic alignment with criterion."
             else if Qgeb semantic_similarity (5 # 10)
             then lit "Moderate semantic relevance."
             else lit "Consider addressing this aspect more directly.")).
Proof.
  intros criterion score kf km sim wc lo hi. cbv zeta.
  unfold format_feedback, feedback_parts. cbv zeta.
  set (F := found_clause kf) in *. set (M := missing_clause km) in *.
  set (band := if Qgeb score 90 then _ else _).
  assert (exists b,
             band = [b] /\ b <> [] /\
             forall tail,
               (startswith (lit "Excellent performance.") (b ++ tail) = true
                <-> 90 <= score) /\
               (startswith (lit "Good performance.") (b ++ tail) = true
                <-> 75 <= score /\ score < 90) /\
               (startswith (lit "Satisfactory performance.") (b ++ tail)
                = true <-> 60 <= score /\ score < 75) /\
               (startswith (lit "Needs improvement.") (b ++ tail) = true
                <-> 40 <= score /\ score < 60) /\
               (startswith (lit "Requires significant improvement.")
                  (b ++ tail) = true <-> score < 40))
    as (b & Eb & NEb & B).
  { subst band.
    destruct (Qgeb_spec score 90), (Qgeb_spec score 75),
      (Qgeb_spec score 60), (Qgeb_spec score 40);
      eexists; (split; [reflexivity |]); (split; [discriminate |]);
      intros tail; cbn;
      repeat split; intros; try discriminate; try reflexivity;
      try lra;
      match goal with
      | H : _ /\ _ |- _ => destruct H; lra
      end. }
  clearbody band. subst band.
  set (body := ([b] ++ F) ++ M).
  set (sem := if Qgeb sim (75 # 100) then body ++ _ else _).
  set (sentence :=
         if Qgeb sim (75 # 100)
         then lit "Strong semantic alignment with criterion."
         else if Qgeb sim (5 # 10)
         then lit "Moderate semantic relevance."
         else lit "Consider addressing this aspect more directly.").
  assert (sem = body ++ [sentence]) as Es.
  { subst sem sentence.
    destruct (Qgeb_spec sim (75 # 100)); [reflexivity |].
    destruct (Qgeb_spec sim (5 # 10)); [reflexivity |].
    destruct (Qltb_spec sim (5 # 10)); [reflexivity | lra]. }
  clearbody sem. subst sem.
  assert (body <> []) as NB by (subst body; discriminate).
  assert (body ++ [sentence] <> []) as NS
    by (subst body; discriminate).
  assert (forall r, join (lit " ") (body ++ r) <> []) as NJ.
  { intros r. subst body. apply join_nonempty. exact NEb. }
  assert (forall r, exists tail, join (lit " ") (body ++ r) = b ++ tail)
    as HJ.
  { intros r. subst body. apply join_cons. }
  assert (forall parts,
             (exists r, parts = body ++ r) ->
             join (lit " ") parts <> [] /\
             (startswith (lit "Excellent performance.")
                (join (lit " ") parts) = true <-> 90 <= score) /\
             (startswith (lit "Good performance.")
                (join (lit " ") parts) = true
              <-> 75 <= score /\ score < 90) /\
             (startswith (lit "Satisfactory performance.")
                (join (lit " ") parts) = true
              <-> 60 <= score /\ score < 75) /\
             (startswith (lit "Needs improvement.")
                (join (lit " ") parts) = true
              <-> 40 <= score /\ score < 60) /\
             (startswith (lit "Requires significant improvement.")
                (join (lit " ") parts) = true <-> score < 40)) as Head.
  { intros parts (r & ->). split; [apply NJ |].
    destruct (HJ r) as (tail & ->). apply B. }
  unfold get_word_count_status. rewrite Z.geb_leb, !Z.gtb_ltb.
  destruct (Z.ltb_spec 0 lo) as [Hlo | Hlo];
    destruct (Z.ltb_spec hi 999) as [Hhi | Hhi]; cbn [andb]; cbv iota.
  - destruct (Z.eqb_spec lo 0); [lia |]. cbn [andb]. cbv iota.
    destruct (Z.ltb_spec wc lo); [| destruct (Z.ltb_spec hi wc)];
      cbv iota;
      match goal with
      | |- context [join (lit " ") ((body ++ [sentence]) ++ [?x])] =>
          destruct (Head ((body ++ [sentence]) ++ [x]))
            as (T0 & T1 & T2 & T3 & T4 & T5);
          [exists ([sentence] ++ [x]); now rewrite <- app_assoc |];
          (split; [exact T0 |]); (split; [exact T1 |]);
          (split; [exact T2 |]); (split; [exact T3 |]);
          (split; [exact T4 |]); (split; [exact T5 |]);
          split;
          [intros _; exists (join (lit " ") (body ++ [sentence]));
           rewrite (join_snoc _ _ _ NS); reflexivity
          | intros N; elim N; split; assumption]
      end.
  - destruct (Head (body ++ [sentence])) as (T0 & T1 & T2 & T3 & T4 & T5);
      [now exists [sentence] |].
    repeat (split; [assumption |]). split; [lia |].
    intros _. exists (join (lit " ") body).
    now rewrite (join_snoc _ _ _ NB).
  - destruct (Head (body ++ [sentence])) as (T0 & T1 & T2 & T3 & T4 & T5);
      [now exists [sentence] |].
    repeat (split; [assumption |]). split; [lia |].
    intros _. exists (join (lit " ") body).
    now rewrite (join_snoc _ _ _ NB).
  - destruct (Head (body ++ [sentence])) as (T0 & T1 & T2 & T3 & T4 & T5);
      [now exists [sentence] |].
    repeat (split; [assumption |]). split; [lia |].
    intros _. exists (join (lit " ") body).
    now rewrite (join_snoc _ _ _ NB).
Qed.

Lemma format_feedback_sentences_witness :
  ((0 < 10)%Z /\ (20 < 999)%Z) /\
  exists front,
    format_feedback [] 80 [lit "a"] [lit "x"] (6 # 10) 5 10 20
    = front ++ lit " "
      ++ lit "Content is brief (5 words). "
      ++ lit "Consider expanding (recommended: 10+ words).".
Proof.
  split; [lia |].
  destruct (format_feedback_sentences [] 80 [lit "a"] [lit "x"] (6 # 10)
              5 10 20) as (_ & _ & _ & _ & _ & _ & H & _).
  exact (H ltac:(lia)).
Defined.

(** With a minimum of 50 words and no maximum, a text of 5 words has the
    word-count status "too short", and the feedback does not mention its
    length. *)
Example format_feedback_silent_on_length :
  get_word_count_status 5 50 999 = too_short /\
  format_feedback [] 80 [] [] (6 # 10) 5 50 999
  = lit "Good performance. Moderate semantic relevance.".
Proof. split; reflexivity. Qed.

End FeedbackFacts.

(** ** More on the validation, the semantic curve and the weighted average *)

Section Arithmetic.

Import Utils NLP Engine.

Variable cosine : str -> str -> Q.

(** X20. The dictionary of [validate_transcript] has the key [word_count]
    exactly when the transcript is valid, and then it holds the number of
    whitespace-separated words, between 10 and 5000.  The message is
    "Transcript is empty" exactly for a transcript that is blank, and
    "Transcript is valid" exactly for a valid one. *)
Theorem validate_transcript_word_count :
  forall transcript : str,
    let v := validate_transcript transcript in
    (valid v = true ->
     val_word_count v = Some (len (split transcript)) /\
     (10 <= len (split transcript) <= 5000)%Z) /\
    (valid v = false -> val_word_count v = None) /\
    (message v = lit "Transcript is empty" <-> strip transcript = []) /\
    (message v = lit "Transcript is valid" <-> valid v = true).
Proof.
  intros t. cbv zeta. unfold validate_transcript.
  assert (is_empty t || is_empty (strip t) = true <-> strip t = []) as HE.
  { destruct t as [| c r]; [split; reflexivity |]. cbn [is_empty orb].
    destruct (strip (c :: r)); cbn; split; congruence. }
  destruct (is_empty t || is_empty (strip t)) eqn:E.
  - cbn [valid message val_word_count].
    split; [discriminate |]. split; [reflexivity |]. split.
    + split; [intros _; now apply HE | reflexivity].
    + split; discriminate.
  - assert (strip t <> []) as NE
      by (intros H; apply HE in H; discriminate H).
    cbv zeta. rewrite Z.gtb_ltb.
    destruct (Z.ltb_spec (len (split t)) 10);
      [| destruct (Z.ltb_spec 5000 (len (split t)))];
      cbn [valid message val_word_count].
    + split; [discriminate |]. split; [reflexivity |]. split.
      * split; [discriminate | contradiction].
      * split; discriminate.
    + split; [discriminate |]. split; [reflexivity |]. split.
      * split; [discriminate | contradiction].
      * split; discriminate.
    + split; [intros _; split; [reflexivity | lia] |].
      split; [discriminate |]. split.
      * split; [discriminate | contradiction].
      * split; reflexivity.
Qed.

Lemma validate_transcript_word_count_witness :
  valid (validate_transcript
           (lit "This is a valid transcript with more than ten words."))
  = true /\
  val_word_count
    (validate_transcript
       (lit "This is a valid transcript with more than ten words."))
  = Some 10%Z.
Proof.
  split; [reflexivity |].
  destruct (validate_transcript_word_count
              (lit "This is a valid transcript with more than ten words."))
    as [H _].
  destruct (H eq_refl) as [E _]. exact E.
Defined.

(** X21. The curve of the semantic sub-score is a straight line: its three
    branches all give 100 times the similarity, so the sub-score is 100 times
    the similarity and grows with it at the same rate everywhere. *)
Theorem semantic_score_linear :
  forall transcript description : str,
    fst (_semantic_score cosine transcript description)
    == 100 * calculate_similarity cosine transcript description /\
    snd (_semantic_score cosine transcript description)
    = calculate_similarity cosine transcript description.
Proof.
  intros t d. split; [| reflexivity].
  pose proof (calculate_similarity_range cosine t d) as R.
  unfold _semantic_score. cbv zeta. cbn [fst].
  set (sim := calculate_similarity cosine t d) in *.
  apply normalize_score_eq; [| lra].
  destruct (Qgeb sim (7 # 10)); [lra |].
  destruct (Qgeb sim (4 # 10)); lra.
Qed.

Lemma sigma_scale (k : Q) (xs : list Q) :
  Spec.sigma (map (fun x => k * x) xs) == k * Spec.sigma xs.
Proof. induction xs as [| x xs IH]; simpl; [lra | rewrite IH; lra]. Qed.

Lemma weighted_sum_scale (k : Q) (scores weights : list Q) :
  Spec.sigma (map (fun sw => fst sw * snd sw)
                (combine scores (map (fun w => k * w) weights)))
  == k * Spec.sigma (map (fun sw => fst sw * snd sw)
                       (combine scores weights)).
Proof.
  revert weights. induction scores as [| s scores IH]; intros [| w weights];
    simpl; try lra.
  rewrite IH. lra.
Qed.

Lemma weighted_sum_constant (s : Q) (scores weights : list Q) :
  Forall (fun x => x == s) scores ->
  length scores = length weights ->
  Spec.sigma (map (fun sw => fst sw * snd sw) (combine scores weights))
  == s * Spec.sigma weights.
Proof.
  intros H. revert weights.
  induction H as [| x scores Hx _ IH]; intros [| w weights] E;
    simpl in *; try discriminate; try lra.
  rewrite IH by congruence. rewrite Hx. lra.
Qed.

(** X22. [calculate_weighted_average] returns 0 when the two lists differ
    in length, in exact arithmetic and on binary64 numbers alike.  In exact
    arithmetic, on lists of equal length only the proportions of the weights
    matter: multiplying every weight by the same number other than 0 leaves
    the result unchanged; and when every score is [s] and the weights do not
    add up to 0 the result is [s].  These two statements are statements in
    exact arithmetic only: on binary64 numbers the results can differ in the
    last digits, as the example after the theorem shows. *)
Theorem calculate_weighted_average_weights :
  forall scores weights : list Q,
    (length scores <> length weights ->
     calculate_weighted_average scores weights == 0) /\
    (forall fscores fweights : list PrimFloat.float,
        length fscores <> length fweights ->
        calculate_weighted_average_binary64 fscores fweights
        = PrimFloat.zero) /\
    (length scores = length weights ->
     (forall k : Q,
         ~ k == 0 ->
         calculate_weighted_average scores (map (fun w => k * w) weights)
         == calculate_weighted_average scores weights) /\
     (forall s : Q,
         Forall (fun x => x == s) scores ->
         ~ Spec.sigma weights == 0 ->
         calculate_weighted_average scores weights == s)).
Proof.
  intros scores weights. split; [| split].
  - intros NE. unfold calculate_weighted_average.
    destruct (Z.eqb_spec (len scores) (len weights)) as [E | _].
    + unfold len in E. apply Nat2Z.inj in E. contradiction.
    + cbn [negb]. rewrite orb_true_r. reflexivity.
  - intros fscores fweights NE. unfold calculate_weighted_average_binary64.
    destruct (Z.eqb_spec (len fscores) (len fweights)) as [E | _].
    + unfold len in E. apply Nat2Z.inj in E. contradiction.
    + cbn [negb]. rewrite orb_true_r. reflexivity.
  - intros E. split.
    + intros k Hk.
      rewrite (calculate_weighted_average_char scores weights E).
      rewrite (calculate_weighted_average_char scores
                 (map (fun w => k * w) weights))
        by now rewrite length_map.
      unfold Spec.weighted_mean.
      rewrite (Qeq_bool_comp _ _ (sigma_scale k weights)).
      destruct (Qeq_bool (Spec.sigma weights) 0) eqn:E0.
      * apply Qeq_bool_iff in E0.
        assert (Qeq_bool (k * Spec.sigma weights) 0 = true) as ->
          by (apply Qeq_bool_iff; rewrite E0; lra).
        reflexivity.
      * apply Qeq_bool_neq in E0.
        assert (Qeq_bool (k * Spec.sigma weights) 0 = false) as ->.
        { destruct (Qeq_bool (k * Spec.sigma weights) 0) eqn:E1;
            [| reflexivity].
          apply Qeq_bool_iff in E1. apply Qmult_integral in E1. tauto. }
        rewrite weighted_sum_scale, sigma_scale. field. split; assumption.
    + intros s Hs NZ.
      rewrite (calculate_weighted_average_char scores weights E).
      destruct (Qeq_bool (Spec.sigma weights) 0) eqn:E0.
      * apply Qeq_bool_iff in E0. contradiction.
      * unfold Spec.weighted_mean.
        rewrite (weighted_sum_constant s scores weights Hs E).
        field. exact NZ.
Qed.

Lemma calculate_weighted_average_weights_witness :
  length [80; 90; 70] = length [2; 3; 1] /\
  calculate_weighted_average [80; 90; 70] (map (fun w => 10 * w) [2; 3; 1])
  == calculate_weighted_average [80; 90; 70] [2; 3; 1].
Proof.
  split; [reflexivity |].
  destruct (calculate_weighted_average_weights [80; 90; 70] [2; 3; 1])
    as (_ & _ & H).
  destruct (H eq_refl) as [K _]. apply K. discriminate.
Defined.

End Arithmetic.

Section Binary64Weights.

Import Utils PrimFloat.

(** On binary64 numbers the proportions of the weights are not all that
    matters: the weights 10, 5, 5 and their triples 30, 15, 15 give
    61.24499999999999 and 61.245000000000005 on the same scores; and three
    scores of 0.01 with the weights 5, 30, 5 give 0.009999999999999998. *)
Example calculate_weighted_average_binary64_weights :
  calculate_weighted_average_binary64 [73.6; 66.97; 30.81]%float
    [10; 5; 5]%float
  = 61.24499999999999%float /\
  calculate_weighted_average_binary64 [73.6; 66.97; 30.81]%float
    (map (fun w => 3 * w)%float [10; 5; 5]%float)
  = 61.245000000000005%float /\
  calculate_weighted_average_binary64 [0.01; 0.01; 0.01]%float
    [5; 30; 5]%float
  = 0.009999999999999998%float /\
  PrimFloat.eqb 61.24499999999999%float 61.245000000000005%float = false /\
  PrimFloat.eqb 0.009999999999999998%float 0.01%float = false.
Proof. repeat split; vm_compute; reflexivity. Qed.

End Binary64Weights.
